(** * email-validator-strict: a shallow embedding of [src/index.ts]

    The development follows the source file top to bottom:

    - [Js]      the string primitives the source calls ([trim], [split],
                [startsWith], truthiness of a string);
    - [RegExp]  regular expressions, their language and an executable
                matcher standing for [RegExp.prototype.test];
    - [Grammar] the two patterns [realWorldEmailRegex] and [rfcSyntaxRegex];
    - [Validator] the async function [validateEmailStrict], with the
                [dns.resolveMx] call as its one suspension point.

    Strings are sequences of UTF-16 code units, as in the language. *)

From Stdlib Require Import List Arith NArith ZArith Ascii String Bool Lia.
Import ListNotations.

Set Implicit Arguments.

(* ===================================================================== *)
(** ** String primitives *)
(* ===================================================================== *)

Module Js.

(** A code unit; a string is a list of them. *)
Definition char := N.
Definition jsstring := list char.

(** Code unit of an ASCII character, and a string literal. *)
Definition ch (a : ascii) : char := N_of_ascii a.
Definition js (s : string) : jsstring := map N_of_ascii (list_ascii_of_string s).

(** The double quote (U+0022). *)
Definition dquote : char := 34%N.

Definition in_range (lo hi c : char) : bool := (lo <=? c)%N && (c <=? hi)%N.
Definition one_of (l : jsstring) (c : char) : bool := existsb (N.eqb c) l.

(** WhiteSpace and LineTerminator code points of ECMAScript: the set that
    [String.prototype.trim] strips and that the class escape [\s] matches. *)
Definition whiteSpaceOrLineTerminator : jsstring :=
  [ 0x09; 0x0A; 0x0B; 0x0C; 0x0D; 0x20; 0xA0; 0x1680;
    0x2000; 0x2001; 0x2002; 0x2003; 0x2004; 0x2005; 0x2006; 0x2007;
    0x2008; 0x2009; 0x200A; 0x2028; 0x2029; 0x202F; 0x205F; 0x3000;
    0xFEFF ]%N.

Definition is_space (c : char) : bool := one_of whiteSpaceOrLineTerminator c.

(** LineTerminator alone: what the wildcard [.] refuses. *)
Definition is_line_terminator (c : char) : bool :=
  one_of [0x0A; 0x0D; 0x2028; 0x2029]%N c.

Fixpoint trimStart (s : jsstring) : jsstring :=
  match s with
  | c :: s' => if is_space c then trimStart s' else s
  | [] => []
  end.

Definition trimEnd (s : jsstring) : jsstring := rev (trimStart (rev s)).

(** [s.trim()] *)
Definition trim (s : jsstring) : jsstring := trimEnd (trimStart s).

(** [s.split(sep)] for a one-character separator: never the empty array,
    and [[""]] for the empty string. *)
Fixpoint split (sep : char) (s : jsstring) : list jsstring :=
  match s with
  | [] => [[]]
  | c :: s' =>
      if (c =? sep)%N then [] :: split sep s'
      else match split sep s' with
           | piece :: rest => (c :: piece) :: rest
           | [] => [[c]]
           end
  end.

(** [s.startsWith(c)] for a one-character argument. *)
Definition startsWith (c : char) (s : jsstring) : bool :=
  match s with
  | c' :: _ => (c' =? c)%N
  | [] => false
  end.

(** Truthiness of [arr[i]] where [arr] holds strings: [undefined] and the
    empty string are falsy. *)
Definition truthy (v : option jsstring) : bool :=
  match v with
  | Some (_ :: _) => true
  | _ => false
  end.

End Js.

Import Js.

(* ===================================================================== *)
(** ** Regular expressions *)
(* ===================================================================== *)

Module RegExp.

(** Pattern syntax, restricted to what the source patterns use. A character
    class is the predicate it denotes on code units. *)
Inductive regex : Type :=
| Void : regex
| Eps : regex
| Class (p : char -> bool) : regex
| Cat (r1 r2 : regex) : regex
| Alt (r1 r2 : regex) : regex
| Star (r : regex) : regex.

(** Derived forms: a literal character, a literal string, [r+], [r?],
    [r{n}] and [r{n,}]. *)
Definition Chr (c : char) : regex := Class (N.eqb c).
Definition Lit (s : jsstring) : regex := fold_right (fun c r => Cat (Chr c) r) Eps s.
Definition Plus (r : regex) : regex := Cat r (Star r).
Definition Opt (r : regex) : regex := Alt r Eps.
Fixpoint Rep (n : nat) (r : regex) : regex :=
  match n with
  | O => Eps
  | S n' => Cat r (Rep n' r)
  end.
Definition AtLeast (n : nat) (r : regex) : regex := Cat (Rep n r) (Star r).

(** The language of a pattern. *)
Inductive matches : regex -> jsstring -> Prop :=
| MEps : matches Eps []
| MClass p c : p c = true -> matches (Class p) [c]
| MCat r1 r2 s1 s2 :
    matches r1 s1 -> matches r2 s2 -> matches (Cat r1 r2) (s1 ++ s2)
| MAltL r1 r2 s : matches r1 s -> matches (Alt r1 r2) s
| MAltR r1 r2 s : matches r2 s -> matches (Alt r1 r2) s
| MStarNil r : matches (Star r) []
| MStarCons r s1 s2 :
    matches r s1 -> matches (Star r) s2 -> matches (Star r) (s1 ++ s2).

(** Executable matcher, by derivatives. *)
Fixpoint nullable (r : regex) : bool :=
  match r with
  | Void => false
  | Eps => true
  | Class _ => false
  | Cat r1 r2 => nullable r1 && nullable r2
  | Alt r1 r2 => nullable r1 || nullable r2
  | Star _ => true
  end.

Definition cat (r1 r2 : regex) : regex :=
  match r1, r2 with
  | Void, _ => Void
  | _, Void => Void
  | Eps, _ => r2
  | _, _ => Cat r1 r2
  end.

Definition alt (r1 r2 : regex) : regex :=
  match r1, r2 with
  | Void, _ => r2
  | _, Void => r1
  | _, _ => Alt r1 r2
  end.

Fixpoint deriv (c : char) (r : regex) : regex :=
  match r with
  | Void => Void
  | Eps => Void
  | Class p => if p c then Eps else Void
  | Cat r1 r2 =>
      if nullable r1 then alt (cat (deriv c r1) r2) (deriv c r2)
      else cat (deriv c r1) r2
  | Alt r1 r2 => alt (deriv c r1) (deriv c r2)
  | Star r1 => cat (deriv c r1) (Star r1)
  end.

Fixpoint accepts (r : regex) (s : jsstring) : bool :=
  match s with
  | [] => nullable r
  | c :: s' => accepts (deriv c r) s'
  end.

(** [re.test(s)] for a pattern anchored at both ends ([^...$]) and without
    the [g], [y] or [m] flags: the call keeps no state, and it answers
    whether the whole of [s] is in the language of the pattern. *)
Definition test (re : regex) (s : jsstring) : bool := accepts re s.

(** Every class of the pattern lies within [Q]: then so does every
    character of a matched string. *)
Fixpoint alphabet (Q : char -> Prop) (r : regex) : Prop :=
  match r with
  | Void | Eps => True
  | Class p => forall c, p c = true -> Q c
  | Cat r1 r2 | Alt r1 r2 => alphabet Q r1 /\ alphabet Q r2
  | Star r1 => alphabet Q r1
  end.


End RegExp.

Import RegExp.

(* ===================================================================== *)
(** ** The two grammars *)
(* ===================================================================== *)

Module Grammar.

(** Character classes of the source patterns. *)

(** [[a-zA-Z0-9]] *)
Definition alnum (c : char) : bool :=
  in_range (ch "a") (ch "z") c || in_range (ch "A") (ch "Z") c
  || in_range (ch "0") (ch "9") c.

(** [[a-zA-Z0-9-]] *)
Definition alnumHyphen (c : char) : bool :=
  in_range (ch "a") (ch "z") c || in_range (ch "A") (ch "Z") c
  || in_range (ch "0") (ch "9") c || (c =? ch "-")%N.

(** [[a-zA-Z]] *)
Definition alpha (c : char) : bool :=
  in_range (ch "a") (ch "z") c || in_range (ch "A") (ch "Z") c.

(** [[^<>()[\]\\.,;:\s@\x22]], the last member being the double quote *)
Definition rwLocalChar (c : char) : bool :=
  negb (one_of (js "<>()[]\.,;:") c || is_space c || (c =? ch "@")%N
        || (c =? dquote)%N).

(** [[a-zA-Z0-9!#$%&'*+/=?^_`{|}~-]] *)
Definition atext (c : char) : bool :=
  in_range (ch "a") (ch "z") c || in_range (ch "A") (ch "Z") c
  || in_range (ch "0") (ch "9") c || one_of (js "!#$%&'*+/=?^_`{|}~-") c.

(** [[^\x22\\]]: neither the double quote nor the backslash *)
Definition qtext (c : char) : bool :=
  negb ((c =? dquote)%N || (c =? ch "\")%N).

(** [.] without the [s] flag *)
Definition anyChar (c : char) : bool := negb (is_line_terminator c).

(** [[a-fA-F0-9:]] *)
Definition hexColon (c : char) : bool :=
  in_range (ch "a") (ch "f") c || in_range (ch "A") (ch "F") c
  || in_range (ch "0") (ch "9") c || (c =? ch ":")%N.

(** *** Real-world pattern

    [/^(LOCAL)@(DOMAIN)$/i], where LOCAL is [C+(\.C+)*] for the negated
    class C above and DOMAIN is
    [([a-zA-Z0-9](?:[a-zA-Z0-9-]*[a-zA-Z0-9])?\.)+[a-zA-Z]{2,}].

    The [i] flag changes nothing here: without the [u] flag a code unit is
    compared after [toUpperCase], a non-ASCII unit never folds to an ASCII
    one, every letter class of the pattern already holds both cases, and no
    member of the negated class is the upper case of another character. *)

(** [[^...]+(\.[^...]+)*] *)
Definition rwLocal : regex :=
  Cat (Plus (Class rwLocalChar))
      (Star (Cat (Chr (ch ".")) (Plus (Class rwLocalChar)))).

(** [[a-zA-Z0-9](?:[a-zA-Z0-9-]*[a-zA-Z0-9])?] *)
Definition rwLabel : regex :=
  Cat (Class alnum) (Opt (Cat (Star (Class alnumHyphen)) (Class alnum))).

(** [(label\.)+[a-zA-Z]{2,}] *)
Definition rwDomain : regex :=
  Cat (Plus (Cat rwLabel (Chr (ch ".")))) (AtLeast 2 (Class alpha)).

Definition realWorldEmailRegex : regex :=
  Cat rwLocal (Cat (Chr (ch "@")) rwDomain).

(** *** RFC pattern components *)

(** [/[a-zA-Z0-9!#$%&'*+/=?^_`{|}~-]+(\.[a-zA-Z0-9!#$%&'*+/=?^_`{|}~-]+)*/] *)
Definition rfcUnquotedLocal : regex :=
  Cat (Plus (Class atext)) (Star (Cat (Chr (ch ".")) (Plus (Class atext)))).

(** [/\x22([^\x22\\]|\\.)*\x22/]: a double quote, then unescaped
    characters or escaped pairs, then a double quote *)
Definition rfcQuotedLocal : regex :=
  Cat (Chr dquote)
      (Cat (Star (Alt (Class qtext) (Cat (Chr (ch "\")) (Class anyChar))))
           (Chr dquote)).

(** [/([a-zA-Z0-9-]+\.)*[a-zA-Z0-9-]+/] *)
Definition rfcDomain : regex :=
  Cat (Star (Cat (Plus (Class alnumHyphen)) (Chr (ch "."))))
      (Plus (Class alnumHyphen)).

(** [(25[0-5]|2[0-4][0-9]|[01]?[0-9][0-9]?)] *)
Definition octet : regex :=
  Alt (Cat (Lit (js "25")) (Class (in_range (ch "0") (ch "5"))))
      (Alt (Cat (Chr (ch "2"))
                (Cat (Class (in_range (ch "0") (ch "4")))
                     (Class (in_range (ch "0") (ch "9")))))
           (Cat (Opt (Class (one_of (js "01"))))
                (Cat (Class (in_range (ch "0") (ch "9")))
                     (Opt (Class (in_range (ch "0") (ch "9"))))))).

(** [/\[octet(\.octet){3}\]/] *)
Definition rfcIPv4 : regex :=
  Cat (Chr (ch "["))
      (Cat octet (Cat (Rep 3 (Cat (Chr (ch ".")) octet)) (Chr (ch "]")))).

(** [/\[IPv6:[a-fA-F0-9:]+\]/] *)
Definition rfcIPv6 : regex :=
  Cat (Lit (js "[IPv6:")) (Cat (Plus (Class hexColon)) (Chr (ch "]"))).

(** [^(unquoted|quoted)@(domain|ipv4|ipv6)$] *)
Definition rfcSyntaxRegex : regex :=
  Cat (Alt rfcUnquotedLocal rfcQuotedLocal)
      (Cat (Chr (ch "@")) (Alt rfcDomain (Alt rfcIPv4 rfcIPv6))).


End Grammar.

Import Grammar.

(* ===================================================================== *)
(** ** The validator *)
(* ===================================================================== *)

Module Validator.

Inductive ValidationMode : Type := RealWorld | Rfc.

(** Both fields are optional; [None] is an absent field. *)
Record ValidatorOptions : Type := {
  checkDomain : option bool;
  validationMode : option ValidationMode
}.

(** Run-time values the function can be handed as [email]; only the
    payload of a string matters to the code. *)
Inductive JsValue : Type :=
| JUndefined | JNull
| JBoolean (b : bool)
| JNumber (n : Z)
| JString (s : jsstring)
| JObject | JArray | JFunction.

Definition typeof (v : JsValue) : string :=
  match v with
  | JUndefined => "undefined"
  | JNull => "object"
  | JBoolean _ => "boolean"
  | JNumber _ => "number"
  | JString _ => "string"
  | JObject | JArray => "object"
  | JFunction => "function"
  end.

Definition stringValue (v : JsValue) : jsstring :=
  match v with
  | JString s => s
  | _ => []
  end.

(** A settled promise. *)
Inductive Settled (E A : Type) : Type :=
| Fulfilled (value : A)
| Rejected (reason : E).
Arguments Fulfilled {E A} value.
Arguments Rejected {E A} reason.

Record MxRecord : Type := { exchange : jsstring; priority : N }.

(** What [dns.resolveMx] rejects with, seen through [nodeError?.code]. *)
Record NodeError : Type := { code : option jsstring }.

Inductive JsError : Type := TypeError (message : jsstring).

(** An async computation whose only suspension point is a call of
    [dns.resolveMx]; the continuation receives how the lookup settled. *)
Inductive Async (A : Type) : Type :=
| Resolve (a : A)
| Reject (e : JsError)
| AwaitResolveMx (domain : jsstring)
                 (k : Settled NodeError (list MxRecord) -> Async A).
Arguments Resolve {A} a.
Arguments Reject {A} e.
Arguments AwaitResolveMx {A} domain k.

(** Running a computation against a resolver: how the promise settles, and
    the arguments of the lookups made, in order. *)
Fixpoint run {A} (resolveMx : jsstring -> Settled NodeError (list MxRecord))
         (p : Async A) : Settled JsError A * list jsstring :=
  match p with
  | Resolve a => (Fulfilled a, [])
  | Reject e => (Rejected e, [])
  | AwaitResolveMx domain k =>
      let (r, calls) := run resolveMx (k (resolveMx domain)) in
      (r, domain :: calls)
  end.

Definition str_eqb (a b : jsstring) : bool :=
  if list_eq_dec N.eq_dec a b then true else false.

Definition codeIs (e : NodeError) (c : string) : bool :=
  match code e with
  | Some c' => str_eqb c' (js c)
  | None => false
  end.

(** [options?.validationMode ?? 'real-world'] *)
Definition modeOf (options : option ValidatorOptions) : ValidationMode :=
  match options with
  | Some o => match validationMode o with Some m => m | None => RealWorld end
  | None => RealWorld
  end.

(** [options?.checkDomain ?? false] *)
Definition checkDomainOf (options : option ValidatorOptions) : bool :=
  match options with
  | Some o => match checkDomain o with Some b => b | None => false end
  | None => false
  end.

(** [validationMode === 'rfc' ? rfcSyntaxRegex : realWorldEmailRegex] *)
Definition selectedRegex (m : ValidationMode) : regex :=
  match m with
  | Rfc => rfcSyntaxRegex
  | RealWorld => realWorldEmailRegex
  end.

(** [trimmedEmail.split('@')[1]] *)
Definition domainOf (trimmedEmail : jsstring) : option jsstring :=
  nth_error (split (ch "@") trimmedEmail) 1.

(** The block under [POST-REGEX CHECKS FOR RFC MODE]: [false] when one of
    its two [return false] is taken, [true] when control falls through. *)
Definition postRegexChecks (trimmedEmail : jsstring) : bool :=
  let domainPart := domainOf trimmedEmail in
  if truthy domainPart then
    let domainPart := match domainPart with Some d => d | None => [] end in
    if negb (startsWith (ch "[") domainPart) then
      let labels := split (ch ".") domainPart in
      let tld := last labels [] in
      if (List.length tld =? 0)%nat then false
      else if existsb (fun l => (List.length l =? 0)%nat) labels then false
      else true
    else true
  else true.

(** The [try]/[catch] around the lookup, as the continuation of the await. *)
Definition afterLookup (r : Settled NodeError (list MxRecord)) : Async bool :=
  match r with
  | Fulfilled mxRecords => Resolve (0 <? List.length mxRecords)%nat
  | Rejected nodeError =>
      if codeIs nodeError "ENOTFOUND" || codeIs nodeError "ENODATA"
         || codeIs nodeError "ESERVFAIL" || codeIs nodeError "ETIMEOUT"
      then Resolve false
      else Resolve false
  end.

(** What the caller observes of a settled lookup: records found or not. *)
Definition lookupVerdict (r : Settled NodeError (list MxRecord)) : bool :=
  match r with
  | Fulfilled mxRecords => (0 <? List.length mxRecords)%nat
  | Rejected _ => false
  end.

Definition validateEmailStrict (email : JsValue)
           (options : option ValidatorOptions) : Async bool :=
  if negb (String.eqb (typeof email) "string") then
    Reject (TypeError (js "Input must be a string."))
  else
    let trimmedEmail := trim (stringValue email) in
    if (List.length trimmedEmail =? 0)%nat then Resolve false
    else
      let validationMode := modeOf options in
      if negb (test (selectedRegex validationMode) trimmedEmail) then
        Resolve false
      else if match validationMode with
              | Rfc => negb (postRegexChecks trimmedEmail)
              | RealWorld => false
              end
      then Resolve false
      else
        let checkDomain := checkDomainOf options in
        if negb checkDomain then Resolve true
        else
          let domain := domainOf trimmedEmail in
          if negb (truthy domain) then Resolve false
          else
            let domain := match domain with Some d => d | None => [] end in
            AwaitResolveMx domain afterLookup.

(** The syntax verdict of a policy on a trimmed string: the selected
    pattern, then for [Rfc] the post-regex block. *)
Definition syntaxAccepts (m : ValidationMode) (trimmedEmail : jsstring) : bool :=
  test (selectedRegex m) trimmedEmail
  && match m with
     | Rfc => postRegexChecks trimmedEmail
     | RealWorld => true
     end.

Definition options_of (m : ValidationMode) (cd : bool) : option ValidatorOptions :=
  Some {| checkDomain := Some cd; validationMode := Some m |}.

End Validator.

Import Validator.

Local Open Scope string_scope.
Local Open Scope list_scope.

(** The quoted-local examples: the double quote is written by its code. *)
Definition quoted (local : string) (rest : string) : jsstring :=
  (dquote :: js local ++ dquote :: js rest)%list.

(** Three resolvers, as the test suite mocks them: records found, none
    found, and a rejected lookup. *)
Definition anyResolver : jsstring -> Settled NodeError (list MxRecord) :=
  fun _ => Fulfilled [ {| exchange := js "mx1.example.com"; priority := 10 |};
                       {| exchange := js "mx2.example.com"; priority := 20 |} ].

Definition emptyResolver : jsstring -> Settled NodeError (list MxRecord) :=
  fun _ => Fulfilled [].

Definition failingResolver (c : option string)
  : jsstring -> Settled NodeError (list MxRecord) :=
  fun _ => Rejected {| code := option_map js c |}.

Definition typeErrorMessage : jsstring := js "Input must be a string.".

(** Reading a string of decimal digits as a number, to state what the
    octet alternative of the IPv4 pattern bounds. *)
Definition isDigit (c : char) : bool := in_range (ch "0") (ch "9") c.
Definition decimalValue (s : jsstring) : N :=
  fold_left (fun acc c => (10 * acc + (c - ch "0"))%N) s 0%N.

(* ===================================================================== *)
(** ** The matcher decides the language *)
(* ===================================================================== *)

Section MatcherCorrect.

Lemma matches_Void_inv s : ~ matches Void s.
Proof. intros H; inversion H. Qed.

Lemma matches_Eps_inv s : matches Eps s -> s = [].
Proof. intros H; inversion H; reflexivity. Qed.

Lemma matches_Class_inv p s :
  matches (Class p) s -> exists c, s = [c] /\ p c = true.
Proof. intros H; inversion H; subst; eauto. Qed.

Lemma matches_Cat_inv r1 r2 s :
  matches (Cat r1 r2) s ->
  exists s1 s2, s = (s1 ++ s2)%list /\ matches r1 s1 /\ matches r2 s2.
Proof. intros H; inversion H; subst; eauto. Qed.

Lemma matches_Alt_inv r1 r2 s :
  matches (Alt r1 r2) s -> matches r1 s \/ matches r2 s.
Proof. intros H; inversion H; subst; auto. Qed.

(** A non-empty match of a star starts with a non-empty match of its body. *)
Lemma matches_Star_cons_inv r c s :
  matches (Star r) (c :: s) ->
  exists s1 s2, s = (s1 ++ s2)%list /\ matches r (c :: s1) /\ matches (Star r) s2.
Proof.
  intros H. remember (Star r) as r' eqn:Er. remember (c :: s) as w eqn:Ew.
  revert c s Ew Er.
  induction H as [ | | | | | | r0 s1 s2 H1 _ H2 IH2 ];
    intros c' s' Ew Er; try discriminate.
  injection Er as ->.
  destruct s1 as [ | a s1 ]; simpl in Ew.
  - apply IH2; auto.
  - injection Ew as -> <-. eauto.
Qed.

Lemma nullable_matches r : nullable r = true <-> matches r [].
Proof.
  induction r as [ | | p | r1 IH1 r2 IH2 | r1 IH1 r2 IH2 | r IH ]; simpl.
  - split; [ discriminate | intros H; inversion H ].
  - split; [ constructor | reflexivity ].
  - split; [ discriminate | intros H; inversion H ].
  - rewrite andb_true_iff, IH1, IH2. split.
    + intros [H1 H2]. exact (MCat H1 H2).
    + intros H. apply matches_Cat_inv in H as (s1 & s2 & E & H1 & H2).
      symmetry in E. apply app_eq_nil in E as [-> ->]. auto.
  - rewrite orb_true_iff, IH1, IH2. split.
    + intros [H | H]; [ apply MAltL | apply MAltR ]; exact H.
    + apply matches_Alt_inv.
  - split; [ constructor | reflexivity ].
Qed.

Lemma cat_matches r1 r2 s : matches (cat r1 r2) s <-> matches (Cat r1 r2) s.
Proof.
  split.
  - destruct r1, r2; simpl; intros H;
      try (exact H); try (inversion H; fail);
      exact (MCat (s1 := []) MEps H).
  - intros H. apply matches_Cat_inv in H as (s1 & s2 & -> & H1 & H2).
    destruct r1, r2; simpl;
      try (inversion H1; fail); try (inversion H2; fail);
      try (apply matches_Eps_inv in H1; subst; exact H2);
      exact (MCat H1 H2).
Qed.

Lemma alt_matches r1 r2 s : matches (alt r1 r2) s <-> matches (Alt r1 r2) s.
Proof.
  split.
  - destruct r1, r2; simpl; intros H;
      try (exact H); try (apply MAltL; exact H); try (apply MAltR; exact H).
  - intros H. apply matches_Alt_inv in H as [H | H];
      destruct r1, r2; simpl;
      try (inversion H; fail); try (exact H);
      try (apply MAltL; exact H); try (apply MAltR; exact H).
Qed.

Lemma deriv_matches c r s : matches (deriv c r) s <-> matches r (c :: s).
Proof.
  revert s.
  induction r as [ | | p | r1 IH1 r2 IH2 | r1 IH1 r2 IH2 | r IH ]; intros s; simpl.
  - split; intros H; inversion H.
  - split; intros H; inversion H.
  - destruct (p c) eqn:Ep; split; intros H.
    + apply matches_Eps_inv in H; subst. constructor; exact Ep.
    + apply matches_Class_inv in H as (c' & E & _). injection E as _ ->. constructor.
    + inversion H.
    + apply matches_Class_inv in H as (c' & E & Hp). injection E as -> _. congruence.
  - assert (Hcat : matches (cat (deriv c r1) r2) s <->
                   exists s1 s2, s = (s1 ++ s2)%list /\ matches r1 (c :: s1) /\ matches r2 s2).
    { rewrite cat_matches. split.
      - intros H. apply matches_Cat_inv in H as (s1 & s2 & -> & H1 & H2).
        apply IH1 in H1. eauto.
      - intros (s1 & s2 & -> & H1 & H2). apply IH1 in H1. exact (MCat H1 H2). }
    destruct (nullable r1) eqn:En.
    + rewrite alt_matches. split.
      * intros H. apply matches_Alt_inv in H as [H | H].
        -- apply Hcat in H as (s1 & s2 & -> & H1 & H2).
           exact (MCat (s1 := c :: s1) H1 H2).
        -- apply IH2 in H. apply nullable_matches in En.
           exact (MCat (s1 := []) En H).
      * intros H. apply matches_Cat_inv in H as (s1 & s2 & E & H1 & H2).
        destruct s1 as [ | a s1 ]; simpl in E.
        -- subst s2. apply MAltR. apply IH2. exact H2.
        -- injection E as <- ->. apply MAltL. apply Hcat. eauto.
    + rewrite Hcat. split.
      * intros (s1 & s2 & -> & H1 & H2). exact (MCat (s1 := c :: s1) H1 H2).
      * intros H. apply matches_Cat_inv in H as (s1 & s2 & E & H1 & H2).
        destruct s1 as [ | a s1 ]; simpl in E.
        -- apply nullable_matches in H1. congruence.
        -- injection E as <- ->. eauto.
  - rewrite alt_matches. split.
    + intros H. apply matches_Alt_inv in H as [H | H];
        [ apply MAltL; apply IH1 | apply MAltR; apply IH2 ]; exact H.
    + intros H. apply matches_Alt_inv in H as [H | H];
        [ apply MAltL; apply IH1 | apply MAltR; apply IH2 ]; exact H.
  - rewrite cat_matches. split.
    + intros H. apply matches_Cat_inv in H as (s1 & s2 & -> & H1 & H2).
      apply IH in H1. exact (MStarCons (s1 := c :: s1) H1 H2).
    + intros H. apply matches_Star_cons_inv in H as (s1 & s2 & -> & H1 & H2).
      apply IH in H1. exact (MCat H1 H2).
Qed.

(** [test] answers membership in the language of the pattern. *)
Theorem test_matches re s : test re s = true <-> matches re s.
Proof.
  unfold test. revert re.
  induction s as [ | c s IH ]; intros re; simpl.
  - apply nullable_matches.
  - rewrite IH. apply deriv_matches.
Qed.

End MatcherCorrect.

(* ===================================================================== *)
(** ** Character classes *)
(* ===================================================================== *)

(** Literal characters and strings are replaced by their code units. *)
Ltac norm_chars :=
  repeat match goal with
    | |- context [ch ?a] =>
        let v := eval vm_compute in (ch a) in change (ch a) with v
    | |- context [js ?a] =>
        let v := eval vm_compute in (js a) in change (js a) with v
    | H : context [ch ?a] |- _ =>
        let v := eval vm_compute in (ch a) in change (ch a) with v in H
    | H : context [js ?a] |- _ =>
        let v := eval vm_compute in (js a) in change (js a) with v in H
    end.

Ltac bool_to_prop :=
  repeat rewrite ?negb_true_iff, ?orb_true_iff, ?orb_false_iff,
    ?andb_true_iff, ?N.leb_le, ?N.eqb_eq, ?N.eqb_neq in *.

(** Facts about the classes: unfold to comparisons of code units. *)
Ltac alphabet_tac :=
  unfold rwLocal, rwLabel, rwDomain, rfcUnquotedLocal, rfcDomain,
    AtLeast, Plus, Opt, Chr;
  cbn [alphabet Rep]; repeat split.

Ltac class_tac :=
  unfold alnum, alnumHyphen, alpha, rwLocalChar, atext, qtext, anyChar,
    hexColon, is_space, is_line_terminator, whiteSpaceOrLineTerminator,
    one_of, in_range, dquote in *;
  norm_chars; simpl existsb in *; bool_to_prop; lia.

Section Classes.

Lemma alnum_alnumHyphen c : alnum c = true -> alnumHyphen c = true.
Proof. intros H. class_tac. Qed.

Lemma alpha_alnumHyphen c : alpha c = true -> alnumHyphen c = true.
Proof. intros H. class_tac. Qed.


Lemma atext_rwLocalChar c : atext c = true -> rwLocalChar c = true.
Proof. intros H. class_tac. Qed.

Lemma rwLocalChar_not_at c : rwLocalChar c = true -> c <> ch "@".
Proof. intros H. class_tac. Qed.


Lemma atext_not_at c : atext c = true -> c <> ch "@".
Proof. intros H. class_tac. Qed.

Lemma alnumHyphen_not_at c : alnumHyphen c = true -> c <> ch "@".
Proof. intros H. class_tac. Qed.

Lemma alnumHyphen_not_dot c : alnumHyphen c = true -> c <> ch ".".
Proof. intros H. class_tac. Qed.

Lemma alnumHyphen_not_bracket c : alnumHyphen c = true -> c <> ch "[".
Proof. intros H. class_tac. Qed.

Lemma is_space_not_at c : is_space c = true -> c <> ch "@".
Proof. intros H. class_tac. Qed.

End Classes.

(* ===================================================================== *)
(** ** Strings: [split] and [trim] *)
(* ===================================================================== *)

Section Strings.

Variable sep : char.

Lemma split_not_nil s : split sep s <> [].
Proof.
  destruct s as [ | c s ]; simpl; [ discriminate | ].
  destruct (c =? sep)%N; [ discriminate | ].
  destruct (split sep s); discriminate.
Qed.

(** A string without the separator is the single piece of its split. *)
Lemma split_no_sep l : Forall (fun c => c <> sep) l -> split sep l = [l].
Proof.
  induction 1 as [ | c l Hc _ IH ]; simpl; [ reflexivity | ].
  apply N.eqb_neq in Hc. rewrite Hc, IH. reflexivity.
Qed.

(** The first piece ends at the first separator. *)
Lemma split_app_sep l rest :
  Forall (fun c => c <> sep) l ->
  split sep (l ++ sep :: rest) = l :: split sep rest.
Proof.
  induction 1 as [ | c l Hc _ IH ]; simpl.
  - rewrite N.eqb_refl. reflexivity.
  - apply N.eqb_neq in Hc. rewrite Hc, IH. reflexivity.
Qed.

Lemma split_two l d :
  Forall (fun c => c <> sep) l -> Forall (fun c => c <> sep) d ->
  split sep (l ++ sep :: d) = [l; d].
Proof.
  intros Hl Hd. rewrite split_app_sep, split_no_sep; auto.
Qed.

End Strings.

Section Trim.

Lemma trimStart_all_space s :
  Forall (fun c => is_space c = true) s -> trimStart s = [].
Proof.
  induction 1 as [ | c s Hc _ IH ]; simpl; [ reflexivity | ].
  rewrite Hc. exact IH.
Qed.

Lemma trim_all_space s :
  Forall (fun c => is_space c = true) s -> trim s = [].
Proof.
  intros H. unfold trim, trimEnd. rewrite (trimStart_all_space H). reflexivity.
Qed.

End Trim.

(* ===================================================================== *)
(** ** Languages of the patterns *)
(* ===================================================================== *)

Section Languages.

Lemma matches_alphabet (Q : char -> Prop) r s :
  alphabet Q r -> matches r s -> Forall Q s.
Proof.
  intros HQ H. induction H; simpl in HQ.
  - constructor.
  - constructor; auto.
  - destruct HQ. apply Forall_app; auto.
  - destruct HQ; auto.
  - destruct HQ; auto.
  - constructor.
  - apply Forall_app; auto.
Qed.


Lemma matches_Star_ind' r (P : jsstring -> Prop) :
  P [] ->
  (forall s1 s2, matches r s1 -> matches (Star r) s2 -> P s2 -> P (s1 ++ s2)%list) ->
  forall s, matches (Star r) s -> P s.
Proof.
  intros Hnil Hcons s H. remember (Star r) as r' eqn:Er.
  induction H as [ | | | | | | r0 s1 s2 H1 _ H2 IH2 ]; try discriminate.
  - exact Hnil.
  - injection Er as ->. auto.
Qed.

Lemma matches_Star_mono r q s :
  (forall t, matches r t -> matches q t) ->
  matches (Star r) s -> matches (Star q) s.
Proof.
  intros Hsub H. induction H using matches_Star_ind'.
  - constructor.
  - constructor; auto.
Qed.

Lemma matches_Star_Class p s :
  Forall (fun c => p c = true) s -> matches (Star (Class p)) s.
Proof.
  induction 1 as [ | c s Hc _ IH ]; [ constructor | ].
  exact (MStarCons (s1 := [c]) (MClass p c Hc) IH).
Qed.

Lemma matches_Plus_Class p s :
  s <> [] -> Forall (fun c => p c = true) s -> matches (Plus (Class p)) s.
Proof.
  intros Hne H. destruct H as [ | c s Hc Hs ]; [ congruence | ].
  exact (MCat (s1 := [c]) (MClass p c Hc) (matches_Star_Class p Hs)).
Qed.

Lemma matches_Plus_Class_inv p s :
  matches (Plus (Class p)) s -> s <> [] /\ Forall (fun c => p c = true) s.
Proof.
  intros H. split.
  - apply matches_Cat_inv in H as (s1 & s2 & -> & H1 & _).
    apply matches_Class_inv in H1 as (c & -> & _). discriminate.
  - apply (matches_alphabet (fun c => p c = true)) in H; [ exact H | ].
    simpl. auto.
Qed.

Lemma matches_Chr_inv c s : matches (Chr c) s -> s = [c].
Proof.
  intros H. apply matches_Class_inv in H as (c' & -> & E).
  apply N.eqb_eq in E. subst. reflexivity.
Qed.

End Languages.

(* ===================================================================== *)
(** ** The two grammars compared *)
(* ===================================================================== *)

Section GrammarFacts.


Lemma Chr_alphabet (Q : char -> Prop) c0 :
  Q c0 -> forall c, (c0 =? c)%N = true -> Q c.
Proof. intros H c E. apply N.eqb_eq in E. subst. exact H. Qed.

Lemma rwLocal_no_at l :
  matches rwLocal l -> Forall (fun c => c <> ch "@") l.
Proof.
  apply matches_alphabet.
  alphabet_tac; try exact rwLocalChar_not_at; apply Chr_alphabet; discriminate.
Qed.




Lemma rfcUnquotedLocal_no_at l :
  matches rfcUnquotedLocal l -> Forall (fun c => c <> ch "@") l.
Proof.
  apply matches_alphabet.
  alphabet_tac; try exact atext_not_at; apply Chr_alphabet; discriminate.
Qed.

Lemma rfcQuotedLocal_first l :
  matches rfcQuotedLocal l -> exists l', l = dquote :: l'.
Proof.
  intros H. apply matches_Cat_inv in H as (s1 & s2 & -> & H1 & _).
  apply matches_Chr_inv in H1 as ->. simpl. eauto.
Qed.

(** A real-world label is a non-empty run of letters, digits and hyphens. *)
Lemma rwLabel_ldh s :
  matches rwLabel s -> matches (Plus (Class alnumHyphen)) s.
Proof.
  intros H. apply matches_Plus_Class.
  - apply matches_Cat_inv in H as (s1 & s2 & -> & H1 & _).
    apply matches_Class_inv in H1 as (c & -> & _). discriminate.
  - revert H. apply matches_alphabet.
    alphabet_tac; auto using alnum_alnumHyphen.
Qed.

Lemma rwTld_ldh s :
  matches (AtLeast 2 (Class alpha)) s -> matches (Plus (Class alnumHyphen)) s.
Proof.
  intros H. apply matches_Plus_Class.
  - apply matches_Cat_inv in H as (s1 & s2 & -> & H1 & _).
    apply matches_Cat_inv in H1 as (a & b & -> & Ha & _).
    apply matches_Class_inv in Ha as (c & -> & _). discriminate.
  - revert H. apply matches_alphabet.
    alphabet_tac; auto using alpha_alnumHyphen.
Qed.

(** Every real-world domain is an RFC plain domain. *)
Lemma rwDomain_rfcDomain d : matches rwDomain d -> matches rfcDomain d.
Proof.
  intros H. apply matches_Cat_inv in H as (s1 & s2 & -> & H1 & H2).
  constructor; [ | apply rwTld_ldh; exact H2 ].
  assert (Hlab : forall t, matches (Cat rwLabel (Chr (ch "."))) t ->
                 matches (Cat (Plus (Class alnumHyphen)) (Chr (ch "."))) t).
  { intros t Ht. apply matches_Cat_inv in Ht as (a & b & -> & Ha & Hb).
    constructor; [ apply rwLabel_ldh; exact Ha | exact Hb ]. }
  apply matches_Cat_inv in H1 as (a & b & -> & Ha & Hb).
  constructor; [ apply Hlab; exact Ha | ].
  revert Hb. apply matches_Star_mono. exact Hlab.
Qed.

Lemma ldh_no_dot s :
  matches (Plus (Class alnumHyphen)) s ->
  s <> [] /\ Forall (fun c => c <> ch ".") s.
Proof.
  intros H. apply matches_Plus_Class_inv in H as [Hne H]. split; [ exact Hne | ].
  revert H. apply Forall_impl. exact alnumHyphen_not_dot.
Qed.

(** Splitting an RFC plain domain on dots leaves no empty label. *)
Lemma rfcDomain_labels d :
  matches rfcDomain d -> Forall (fun l => l <> []) (split (ch ".") d).
Proof.
  intros H. apply matches_Cat_inv in H as (s1 & s2 & -> & H1 & H2).
  apply ldh_no_dot in H2 as [Hne Hnd].
  induction H1 as [ | s1 s3 Hlab _ IH ] using matches_Star_ind'.
  - simpl. rewrite split_no_sep by exact Hnd. constructor; auto.
  - apply matches_Cat_inv in Hlab as (a & b & -> & Ha & Hb).
    apply matches_Chr_inv in Hb as ->. apply ldh_no_dot in Ha as [Hane Hand].
    rewrite <- !app_assoc. simpl. rewrite split_app_sep by exact Hand.
    constructor; [ exact Hane | exact IH ].
Qed.

Lemma rfcDomain_alphabet d :
  matches rfcDomain d ->
  Forall (fun c => alnumHyphen c = true \/ c = ch ".") d.
Proof.
  apply matches_alphabet.
  alphabet_tac; auto; apply Chr_alphabet; auto.
Qed.

Lemma rfcDomain_no_at d :
  matches rfcDomain d -> Forall (fun c => c <> ch "@") d.
Proof.
  intros H. apply rfcDomain_alphabet in H. revert H. apply Forall_impl.
  intros c [H | ->]; [ apply alnumHyphen_not_at; exact H | discriminate ].
Qed.

Lemma rfcDomain_nonempty d : matches rfcDomain d -> d <> [].
Proof.
  intros H. apply rfcDomain_labels in H. intros ->. simpl in H.
  inversion H; subst. congruence.
Qed.

End GrammarFacts.

(* ===================================================================== *)
(** ** The validator, step by step *)
(* ===================================================================== *)

Section ValidatorFacts.

Lemma realWorld_decompose t :
  test realWorldEmailRegex t = true ->
  exists l d, t = l ++ ch "@" :: d /\ matches rwLocal l /\ matches rwDomain d.
Proof.
  intros H. apply test_matches in H.
  apply matches_Cat_inv in H as (l & s2 & -> & Hl & H).
  apply matches_Cat_inv in H as (a & d & -> & Ha & Hd).
  apply matches_Chr_inv in Ha as ->. simpl. eauto.
Qed.

Lemma rfc_decompose t :
  test rfcSyntaxRegex t = true ->
  exists l d, t = l ++ ch "@" :: d
              /\ (matches rfcUnquotedLocal l \/ matches rfcQuotedLocal l)
              /\ matches (Alt rfcDomain (Alt rfcIPv4 rfcIPv6)) d.
Proof.
  intros H. apply test_matches in H.
  apply matches_Cat_inv in H as (l & s2 & -> & Hl & H).
  apply matches_Cat_inv in H as (a & d & -> & Ha & Hd).
  apply matches_Chr_inv in Ha as ->. apply matches_Alt_inv in Hl.
  simpl. eauto.
Qed.

Lemma Forall_last (A : Type) (P : A -> Prop) (l : list A) (d : A) :
  l <> [] -> Forall P l -> P (last l d).
Proof.
  intros Hne H. induction H as [ | a l Ha Hl IH ]; [ congruence | ].
  destruct l as [ | b l ]; [ exact Ha | ].
  change (P (last (b :: l) d)). apply IH. discriminate.
Qed.

Lemma no_empty_label labels :
  Forall (fun l : jsstring => l <> []) labels ->
  existsb (fun l => (List.length l =? 0)%nat) labels = false.
Proof.
  induction 1 as [ | l labels Hl _ IH ]; simpl; [ reflexivity | ].
  rewrite IH. destruct l; [ congruence | reflexivity ].
Qed.

(** With one [@] and a plain domain after it, the post-regex block lets
    the address through. *)
Lemma postRegexChecks_plain l d :
  Forall (fun c => c <> ch "@") l -> matches rfcDomain d ->
  domainOf (l ++ ch "@" :: d) = Some d /\ d <> []
  /\ postRegexChecks (l ++ ch "@" :: d) = true.
Proof.
  intros Hl Hd.
  assert (Hdom : domainOf (l ++ ch "@" :: d) = Some d).
  { unfold domainOf. rewrite split_two; auto using rfcDomain_no_at. }
  pose proof (rfcDomain_nonempty Hd) as Hne.
  pose proof (rfcDomain_labels Hd) as Hlab.
  pose proof (rfcDomain_alphabet Hd) as Hal.
  repeat split; auto.
  unfold postRegexChecks. rewrite Hdom.
  destruct d as [ | c d' ]; [ congruence | ]. cbn [truthy startsWith].
  assert (Hc : (c =? ch "[")%N = false).
  { apply N.eqb_neq. inversion Hal as [ | ? ? [Hc | ->] _ ]; subst;
      [ apply alnumHyphen_not_bracket; exact Hc | discriminate ]. }
  rewrite Hc. cbn [negb].
  rewrite (no_empty_label Hlab).
  assert (Ht : last (split (ch ".") (c :: d')) [] <> []).
  { apply Forall_last with (P := fun l : jsstring => l <> []);
      [ apply split_not_nil | exact Hlab ]. }
  destruct (last (split (ch ".") (c :: d')) []); [ congruence | reflexivity ].
Qed.

Lemma Forall_forallb (p : char -> bool) l :
  Forall (fun c => p c = true) l <-> forallb p l = true.
Proof.
  rewrite forallb_forall, Forall_forall. reflexivity.
Qed.


(** Neither pattern matches the empty string. *)
Lemma test_empty m : test (selectedRegex m) [] = false.
Proof. destruct m; reflexivity. Qed.

(** The function on a string argument, as one decision tree. *)
Lemma validate_string s o :
  validateEmailStrict (JString s) o =
  if syntaxAccepts (modeOf o) (trim s) then
    if checkDomainOf o then
      match domainOf (trim s) with
      | Some (c :: d) => AwaitResolveMx (c :: d) afterLookup
      | _ => Resolve false
      end
    else Resolve true
  else Resolve false.
Proof.
  unfold validateEmailStrict, syntaxAccepts. cbn [typeof stringValue].
  change (negb (String.eqb "string" "string")) with false. cbv iota.
  destruct (trim s) as [ | c t ] eqn:Et.
  - cbn [List.length Nat.eqb]. rewrite test_empty. reflexivity.
  - cbn [List.length Nat.eqb].
    destruct (test (selectedRegex (modeOf o)) (c :: t)); cbn [negb andb];
      [ | reflexivity ].
    destruct (modeOf o).
    + destruct (checkDomainOf o); cbn [negb]; [ | reflexivity ].
      destruct (domainOf (c :: t)) as [ [ | c' d ] | ]; reflexivity.
    + destruct (postRegexChecks (c :: t)); cbn [negb]; [ | reflexivity ].
      destruct (checkDomainOf o); cbn [negb]; [ | reflexivity ].
      destruct (domainOf (c :: t)) as [ [ | c' d ] | ]; reflexivity.
Qed.

(** Without the domain check the promise settles on the syntax verdict and
    the resolver is not called. *)
Lemma run_no_check resolver s o :
  checkDomainOf o = false ->
  run resolver (validateEmailStrict (JString s) o)
  = (Fulfilled (syntaxAccepts (modeOf o) (trim s)), []).
Proof.
  intros Hcd. rewrite validate_string, Hcd.
  destruct (syntaxAccepts (modeOf o) (trim s)); reflexivity.
Qed.

Lemma run_afterLookup resolver r :
  run resolver (afterLookup r) = (Fulfilled (lookupVerdict r), []).
Proof.
  destruct r as [ mx | e ]; simpl; [ reflexivity | ].
  destruct (codeIs e "ENOTFOUND" || codeIs e "ENODATA"
            || codeIs e "ESERVFAIL" || codeIs e "ETIMEOUT"); reflexivity.
Qed.

(** With the domain check, an accepted address whose second [@]-piece is
    non-empty costs one lookup, of that piece. *)
Lemma run_check resolver s o d :
  checkDomainOf o = true ->
  syntaxAccepts (modeOf o) (trim s) = true ->
  domainOf (trim s) = Some d -> d <> [] ->
  run resolver (validateEmailStrict (JString s) o)
  = (Fulfilled (lookupVerdict (resolver d)), [d]).
Proof.
  intros Hcd Hacc Hdom Hne. rewrite validate_string, Hcd, Hacc, Hdom.
  destruct d as [ | c d ]; [ congruence | ].
  cbn [run]. rewrite run_afterLookup. reflexivity.
Qed.

End ValidatorFacts.

(* ===================================================================== *)
(** ** The repository's test vectors *)
(* ===================================================================== *)

Section TestVectors.

Let universallyValidEmails : list string :=
  [ "test@example.com"; "test.test@example.com"; "test+alias@example.com";
    "test@sub.example.com"; "test@example.co.uk"; "test@example-domain.com";
    "test_test@example.com"; "123@example.com" ].

Let rfcOnlyValidEmails : list jsstring :=
  [ js "test@localhost"; js "test@192.168.1.1";
    quoted "quoted string" "@example.com"; js "test@[1.2.3.4]";
    js "test@example.c"; js "test@-example.com"; js "test@example-.com";
    js "test@[IPv6:::1]" ].

Let universallyInvalidEmails : list string :=
  [ "test"; "test@"; "@example.com"; "test@.com"; "test@com.";
    "test @example.com"; "test@ example.com"; "test@example .com";
    "test..test@example.com"; "test@example..com"; "test@example.com.";
    ".test@example.com"; "test.@example.com"; "test@_example.com";
    "test@[1.2.3]" ].

Let verdict (m : ValidationMode) (s : jsstring) :=
  run anyResolver (validateEmailStrict (JString s) (options_of m false)).

Example universally_valid m :
  Forall (fun s => verdict m (js s) = (Fulfilled true, [])) universallyValidEmails.
Proof. destruct m; repeat constructor. Qed.

Example rfc_only_valid :
  Forall (fun s => verdict RealWorld s = (Fulfilled false, [])
                   /\ verdict Rfc s = (Fulfilled true, [])) rfcOnlyValidEmails.
Proof. repeat constructor. Qed.

Example universally_invalid m :
  Forall (fun s => verdict m (js s) = (Fulfilled false, [])) universallyInvalidEmails.
Proof. destruct m; repeat constructor. Qed.

End TestVectors.

(* ===================================================================== *)
(** ** Properties of the validator *)
(* ===================================================================== *)

Section Outcomes.

Lemma run_string_fulfilled resolver s o :
  exists b calls,
    run resolver (validateEmailStrict (JString s) o) = (Fulfilled b, calls).
Proof.
  rewrite validate_string.
  destruct (syntaxAccepts (modeOf o) (trim s)); [ | simpl; eauto ].
  destruct (checkDomainOf o); [ | simpl; eauto ].
  destruct (domainOf (trim s)) as [ [ | c d ] | ]; try (simpl; eauto).
  cbn [run]. rewrite run_afterLookup. eauto.
Qed.

Lemma typeof_string v : typeof v = "string" -> exists s, v = JString s.
Proof. destruct v; try discriminate. eauto. Qed.

(** In real-world mode an accepted address has exactly one [@]; the piece
    after it is the domain, and it is what the lookup receives. *)
Lemma realWorld_lookup resolver s o :
  modeOf o = RealWorld -> checkDomainOf o = true ->
  syntaxAccepts RealWorld (trim s) = true ->
  exists l d,
    trim s = l ++ ch "@" :: d
    /\ Forall (fun c => c <> ch "@") l /\ Forall (fun c => c <> ch "@") d
    /\ run resolver (validateEmailStrict (JString s) o)
       = (Fulfilled (lookupVerdict (resolver d)), [d]).
Proof.
  intros Hm Hcd Hacc. pose proof Hacc as Hrw.
  unfold syntaxAccepts in Hrw. cbn [selectedRegex] in Hrw.
  rewrite andb_true_r in Hrw.
  apply realWorld_decompose in Hrw as (l & d & E & Hl & Hd).
  pose proof (rwLocal_no_at Hl) as Hlat.
  pose proof (rwDomain_rfcDomain Hd) as Hd'.
  destruct (postRegexChecks_plain Hlat Hd') as (Hdom & Hne & _).
  exists l, d. repeat split; auto using rfcDomain_no_at.
  apply run_check; rewrite ?Hm, ?E; auto. rewrite <- E; exact Hacc.
Qed.

(** The verdict is [true] exactly for a fulfilled lookup with at least
    one record. *)
Lemma lookupVerdict_true r :
  lookupVerdict r = true <-> exists mx, r = Fulfilled mx /\ mx <> [].
Proof.
  destruct r as [ mx | e ]; simpl.
  - destruct mx as [ | m mx ]; simpl; split.
    + discriminate.
    + intros (mx' & E & Hne). injection E as <-. congruence.
    + intros _. eexists; split; [ reflexivity | discriminate ].
    + reflexivity.
  - split; [ discriminate | intros (mx & E & _); discriminate ].
Qed.

(** The spec's example: [test@example-valid.com] with the domain check
    makes one lookup, of [example-valid.com], and resolves to its verdict. *)
Example example_valid_lookup resolver m :
  run resolver (validateEmailStrict (JString (js "test@example-valid.com"))
                                    (options_of m true))
  = (Fulfilled (lookupVerdict (resolver (js "example-valid.com"))),
     [js "example-valid.com"]).
Proof.
  apply run_check; try discriminate; destruct m; vm_compute; reflexivity.
Qed.

(** Whenever the trimmed input holds two [@] or more, the piece taken for
    the domain is the text between the first two. *)
Lemma domainOf_second_piece a b c :
  Forall (fun x => x <> ch "@") a -> Forall (fun x => x <> ch "@") b ->
  domainOf (a ++ ch "@" :: b ++ ch "@" :: c) = Some b.
Proof.
  intros Ha Hb. unfold domainOf. rewrite !split_app_sep by assumption.
  reflexivity.
Qed.

Lemma last_In (A : Type) (l : list A) (d : A) : l <> [] -> In (last l d) l.
Proof.
  induction l as [ | a l IH ]; [ congruence | ]. intros _.
  destruct l as [ | b l ]; [ left; reflexivity | ].
  right. apply IH. discriminate.
Qed.

Lemma existsb_empty (labels : list jsstring) :
  existsb (fun l => (List.length l =? 0)%nat) labels = true <-> In [] labels.
Proof.
  rewrite existsb_exists. split.
  - intros (l & Hin & Hl). destruct l; [ exact Hin | discriminate ].
  - intros H. exists []. auto.
Qed.

(** The post-regex block returns [false] only for a non-empty,
    unbracketed second [@]-piece with an empty label. *)
Lemma postRegexChecks_false t :
  postRegexChecks t = false <->
  exists d, domainOf t = Some d /\ d <> [] /\ startsWith (ch "[") d = false
            /\ In [] (split (ch ".") d).
Proof.
  unfold postRegexChecks. split.
  - destruct (domainOf t) as [ [ | c d ] | ]; cbn [truthy]; try discriminate.
    destruct (startsWith (ch "[") (c :: d)) eqn:Eb; cbn [negb]; try discriminate.
    intros H. exists (c :: d).
    split; [ reflexivity | ]. split; [ discriminate | ]. split; [ exact Eb | ].
    destruct (last (split (ch ".") (c :: d)) []) as [ | x tld ] eqn:El.
    + rewrite <- El. apply last_In. apply split_not_nil.
    + cbn [List.length Nat.eqb] in H. apply existsb_empty.
      destruct (existsb _ _); [ reflexivity | discriminate ].
  - intros (d & -> & Hne & Hb & Hin).
    destruct d as [ | c d ]; [ congruence | ]. cbn [truthy].
    rewrite Hb. cbn [negb]. apply existsb_empty in Hin. rewrite Hin.
    destruct (List.length _ =? 0)%nat; reflexivity.
Qed.

End Outcomes.

Section Claims.




(** C2 at its failing input. In rfc mode the quoted local part of
    [QUOTE a@@b QUOTE @example.com] holds two adjacent [@]: the address
    passes the syntax stage (it resolves to [true] without the domain
    check), yet the second piece of the split on [@] is empty, and with
    the domain check the function resolves to [false] without calling a
    resolver that would have answered with records. *)
Theorem accepted_address_without_lookup :
  run anyResolver
      (validateEmailStrict (JString (quoted "a@@b" "@example.com"))
                           (options_of Rfc false))
  = (Fulfilled true, [])
  /\ domainOf (trim (quoted "a@@b" "@example.com")) = Some []
  /\ lookupVerdict (anyResolver (js "example.com")) = true
  /\ run anyResolver
         (validateEmailStrict (JString (quoted "a@@b" "@example.com"))
                              (options_of Rfc true))
     = (Fulfilled false, []).
Proof. repeat split; vm_compute; reflexivity. Qed.

(** C3. A value that is not a string makes the promise reject with the
    [TypeError], whatever the options, and no lookup is made; for a string
    the promise never rejects. *)
Theorem non_string_input_rejected resolver v o :
  (typeof v <> "string" ->
   run resolver (validateEmailStrict v o)
   = (Rejected (TypeError typeErrorMessage), []))
  /\ (typeof v = "string" ->
      forall e, fst (run resolver (validateEmailStrict v o)) <> Rejected e).
Proof.
  split.
  - intros H. destruct v; try reflexivity. contradiction H. reflexivity.
  - intros H e. apply typeof_string in H as (s & ->).
    destruct (run_string_fulfilled resolver s o) as (b & calls & ->).
    discriminate.
Qed.

Lemma non_string_input_rejected_witness :
  run anyResolver (validateEmailStrict (JNumber 123) None)
  = (Rejected (TypeError typeErrorMessage), [])
  /\ forall e,
       fst (run anyResolver
              (validateEmailStrict (JString (js "test@example.com")) None))
       <> Rejected e.
Proof.
  split.
  - apply (proj1 (non_string_input_rejected anyResolver (JNumber 123) None)).
    discriminate.
  - apply (proj2 (non_string_input_rejected anyResolver
                    (JString (js "test@example.com")) None)).
    reflexivity.
Defined.

(** C4. An input that is empty or made only of white space resolves to
    [false] under every options value (either mode, either [checkDomain],
    or none given), and no lookup is made. *)
Theorem blank_input_rejected resolver s o :
  forallb is_space s = true ->
  run resolver (validateEmailStrict (JString s) o) = (Fulfilled false, []).
Proof.
  intros H. apply Forall_forallb in H. apply trim_all_space in H.
  unfold validateEmailStrict. cbn [typeof stringValue].
  rewrite H. reflexivity.
Qed.

Lemma blank_input_rejected_witness :
  run anyResolver
      (validateEmailStrict (JString (js "   ")) (options_of Rfc true))
  = (Fulfilled false, []).
Proof.
  apply (@blank_input_rejected anyResolver (js "   ") (options_of Rfc true)).
  reflexivity.
Defined.

(** C5. When the selected pattern does not match the trimmed input, or in
    rfc mode the post-regex block refuses it, the promise resolves to
    [false], no error is raised, and no lookup is made, whatever
    [checkDomain] says. *)
Theorem syntax_rejection_resolves_false resolver s o :
  test (selectedRegex (modeOf o)) (trim s) = false
  \/ (modeOf o = Rfc /\ postRegexChecks (trim s) = false) ->
  run resolver (validateEmailStrict (JString s) o) = (Fulfilled false, []).
Proof.
  intros H. rewrite validate_string.
  assert (E : syntaxAccepts (modeOf o) (trim s) = false).
  { unfold syntaxAccepts. destruct H as [-> | [-> ->]];
      [ reflexivity | apply andb_false_r ]. }
  rewrite E. reflexivity.
Qed.

Lemma syntax_rejection_resolves_false_witness :
  run anyResolver
      (validateEmailStrict (JString (js "test@example..com"))
                           (options_of Rfc true))
  = (Fulfilled false, []).
Proof.
  apply (@syntax_rejection_resolves_false anyResolver
           (js "test@example..com") (options_of Rfc true)).
  left. reflexivity.
Defined.

(** C6. Omitting the options, or either field of them, is the same as
    giving [validationMode: 'real-world'] and [checkDomain: false] for
    what is omitted; [test@example.com] without options resolves to [true]
    and makes no lookup. *)
Theorem omitted_options_default v :
  validateEmailStrict v None
  = validateEmailStrict v (options_of RealWorld false)
  /\ validateEmailStrict v
       (Some {| checkDomain := None; validationMode := None |})
     = validateEmailStrict v (options_of RealWorld false)
  /\ (forall cd,
        validateEmailStrict v
          (Some {| checkDomain := Some cd; validationMode := None |})
        = validateEmailStrict v (options_of RealWorld cd))
  /\ (forall m,
        validateEmailStrict v
          (Some {| checkDomain := None; validationMode := Some m |})
        = validateEmailStrict v (options_of m false))
  /\ (forall resolver,
        run resolver
            (validateEmailStrict (JString (js "test@example.com")) None)
        = (Fulfilled true, [])).
Proof.
  split; [ reflexivity | ]. split; [ reflexivity | ].
  split; [ intros cd; reflexivity | ]. split; [ intros m; reflexivity | ].
  intros resolver. rewrite run_no_check by reflexivity.
  vm_compute. reflexivity.
Qed.

(** C7. Without the domain check, [test@localhost] and
    [QUOTE user name QUOTE @example.com] resolve to [false] in real-world
    mode and to [true] in rfc mode. *)
Theorem modes_disagree_on_examples resolver :
  run resolver (validateEmailStrict (JString (js "test@localhost"))
                                    (options_of RealWorld false))
  = (Fulfilled false, [])
  /\ run resolver (validateEmailStrict (JString (js "test@localhost"))
                                       (options_of Rfc false))
     = (Fulfilled true, [])
  /\ run resolver
         (validateEmailStrict (JString (quoted "user name" "@example.com"))
                              (options_of RealWorld false))
     = (Fulfilled false, [])
  /\ run resolver
         (validateEmailStrict (JString (quoted "user name" "@example.com"))
                              (options_of Rfc false))
     = (Fulfilled true, []).
Proof.
  repeat split; rewrite run_no_check by reflexivity; vm_compute; reflexivity.
Qed.

(** The three lenient domains of the README: in rfc mode without the
    domain check, a one-letter last label and labels with a hyphen at
    either end are accepted. *)
Example lenient_domains_accepted resolver :
  run resolver (validateEmailStrict (JString (js "test@example.c"))
                                    (options_of Rfc false))
  = (Fulfilled true, [])
  /\ run resolver (validateEmailStrict (JString (js "test@-example.com"))
                                       (options_of Rfc false))
     = (Fulfilled true, [])
  /\ run resolver (validateEmailStrict (JString (js "test@example-.com"))
                                       (options_of Rfc false))
     = (Fulfilled true, []).
Proof.
  split; [ | split ];
    rewrite run_no_check by reflexivity; vm_compute; reflexivity.
Qed.

(** C8 at its failing input. In rfc mode without the domain check,
    [QUOTE a@.b QUOTE @example.com] is matched by the pattern and its
    domain, the text after the last [@], is [example.com], whose labels
    are all non-empty; yet the post-regex block, which reads the second
    piece of the split on [@] (here [.b QUOTE]) as the domain, finds an
    empty label there and the function resolves to [false]. The same
    happens with the one-letter last label of
    [QUOTE a@.b QUOTE @example.c]. The block thus refuses addresses whose
    domain has no empty label. *)
Theorem refinement_refuses_domain_without_empty_label resolver :
  test rfcSyntaxRegex (quoted "a@.b" "@example.com") = true
  /\ last (split (ch "@") (trim (quoted "a@.b" "@example.com"))) []
     = js "example.com"
  /\ ~ In [] (split (ch ".") (js "example.com"))
  /\ domainOf (trim (quoted "a@.b" "@example.com"))
     = Some (js ".b" ++ [dquote])
  /\ postRegexChecks (trim (quoted "a@.b" "@example.com")) = false
  /\ run resolver
         (validateEmailStrict (JString (quoted "a@.b" "@example.com"))
                              (options_of Rfc false))
     = (Fulfilled false, [])
  /\ test rfcSyntaxRegex (quoted "a@.b" "@example.c") = true
  /\ run resolver
         (validateEmailStrict (JString (quoted "a@.b" "@example.c"))
                              (options_of Rfc false))
     = (Fulfilled false, []).
Proof.
  split; [ vm_compute; reflexivity | ].
  split; [ vm_compute; reflexivity | ].
  split.
  { vm_compute. intros H.
    repeat (destruct H as [H | H]; [ discriminate H | ]). exact H. }
  split; [ vm_compute; reflexivity | ].
  split; [ vm_compute; reflexivity | ].
  split; [ rewrite run_no_check by reflexivity; vm_compute; reflexivity | ].
  split; [ vm_compute; reflexivity | ].
  rewrite run_no_check by reflexivity. vm_compute. reflexivity.
Qed.

(** C9. With [checkDomain] false or absent, the result depends only on
    the input string and the validation mode: two calls that agree on
    these settle alike whatever the resolvers would answer, and neither
    makes a lookup. *)
Theorem no_check_is_deterministic resolver1 resolver2 s o1 o2 :
  checkDomainOf o1 = false -> checkDomainOf o2 = false ->
  modeOf o1 = modeOf o2 ->
  run resolver1 (validateEmailStrict (JString s) o1)
  = run resolver2 (validateEmailStrict (JString s) o2)
  /\ snd (run resolver1 (validateEmailStrict (JString s) o1)) = [].
Proof.
  intros H1 H2 Hm. rewrite !run_no_check by assumption.
  rewrite Hm. split; reflexivity.
Qed.

Lemma no_check_is_deterministic_witness :
  run anyResolver
      (validateEmailStrict (JString (js "test@example.com")) None)
  = run (failingResolver (Some "ETIMEOUT"))
        (validateEmailStrict (JString (js "test@example.com"))
                             (options_of RealWorld false))
  /\ snd (run anyResolver
            (validateEmailStrict (JString (js "test@example.com")) None))
     = [].
Proof.
  apply (@no_check_is_deterministic anyResolver
           (failingResolver (Some "ETIMEOUT")) (js "test@example.com")
           None (options_of RealWorld false));
    reflexivity.
Defined.

(** C10. For [QUOTE a@b QUOTE @example.com] in rfc mode, which is
    accepted, the string taken for the domain is the piece between the
    first and the second [@], that is [b QUOTE], and not [example.com],
    the part after the last [@]: with [checkDomain] the one lookup made is
    of that piece, whatever the resolver; and the post-regex block reads
    the same piece, since [QUOTE a@.b QUOTE @example.com], whose pattern
    match and true domain are the same, is refused for the empty label of
    [.b QUOTE]. *)
Theorem lookup_of_a_piece_of_the_local_part resolver :
  run resolver
      (validateEmailStrict (JString (quoted "a@b" "@example.com"))
                           (options_of Rfc false))
  = (Fulfilled true, [])
  /\ domainOf (trim (quoted "a@b" "@example.com")) = Some (js "b" ++ [dquote])
  /\ js "b" ++ [dquote] <> js "example.com"
  /\ run resolver
         (validateEmailStrict (JString (quoted "a@b" "@example.com"))
                              (options_of Rfc true))
     = (Fulfilled (lookupVerdict (resolver (js "b" ++ [dquote]))),
        [js "b" ++ [dquote]])
  /\ test rfcSyntaxRegex (quoted "a@.b" "@example.com") = true
  /\ run resolver
         (validateEmailStrict (JString (quoted "a@.b" "@example.com"))
                              (options_of Rfc false))
     = (Fulfilled false, []).
Proof.
  split; [ | split; [ | split; [ | split; [ | split ] ] ] ].
  - rewrite run_no_check by reflexivity. vm_compute. reflexivity.
  - vm_compute. reflexivity.
  - discriminate.
  - apply run_check; try discriminate; vm_compute; reflexivity.
  - vm_compute. reflexivity.
  - rewrite run_no_check by reflexivity. vm_compute. reflexivity.
Qed.

End Claims.

(* ===================================================================== *)
(** ** More on [split] and [trim] *)
(* ===================================================================== *)

Section SplitMore.

Variable sep : char.

(** Splitting distributes over a separator. *)
Lemma split_app a b :
  split sep (a ++ sep :: b) = split sep a ++ split sep b.
Proof.
  induction a as [ | c a IH ]; simpl.
  - rewrite N.eqb_refl. reflexivity.
  - rewrite IH. destruct (c =? sep)%N; [ reflexivity | ].
    pose proof (split_not_nil sep a) as Hne.
    destruct (split sep a) as [ | p r ]; [ congruence | reflexivity ].
Qed.

(** No piece of a split holds the separator. *)
Lemma split_pieces_no_sep s :
  Forall (Forall (fun c => c <> sep)) (split sep s).
Proof.
  induction s as [ | c s IH ]; simpl.
  - repeat constructor.
  - destruct (c =? sep)%N eqn:E.
    + constructor; [ constructor | exact IH ].
    + apply N.eqb_neq in E.
      destruct (split sep s) as [ | p r ]; [ repeat constructor; exact E | ].
      inversion IH; subst. constructor; [ constructor; assumption | assumption ].
Qed.

(** A split is the first piece alone, or the first piece, a separator and
    the split of what follows. *)
Lemma split_inv s p rest :
  split sep s = p :: rest ->
  (rest = [] /\ s = p) \/
  (exists s', s = p ++ sep :: s' /\ split sep s' = rest).
Proof.
  revert p rest. induction s as [ | c s IH ]; intros p rest; simpl.
  - intros E. injection E as <- <-. left. auto.
  - destruct (c =? sep)%N eqn:Ec.
    + apply N.eqb_eq in Ec. subst c. intros E. injection E as <- <-.
      right. exists s. auto.
    + pose proof (split_not_nil sep s) as Hne.
      destruct (split sep s) as [ | q r ] eqn:Es; [ congruence | ].
      intros E. injection E as <- <-.
      destruct (IH q r eq_refl) as [ [-> ->] | (s' & -> & Hs') ].
      * left. auto.
      * right. exists s'. auto.
Qed.

Lemma split_one_piece s :
  List.length (split sep s) = 1%nat -> Forall (fun c => c <> sep) s.
Proof.
  intros H. pose proof (split_pieces_no_sep s) as Hp.
  destruct (split sep s) as [ | p [ | q r ] ] eqn:Es; try discriminate.
  apply split_inv in Es as [ [_ ->] | (s' & _ & Hs') ].
  - inversion Hp; assumption.
  - apply split_not_nil in Hs'. contradiction.
Qed.

End SplitMore.

Section TrimMore.

Lemma trimStart_app_space ws s :
  Forall (fun c => is_space c = true) ws -> trimStart (ws ++ s) = trimStart s.
Proof.
  induction 1 as [ | c ws Hc _ IH ]; simpl; [ reflexivity | ].
  rewrite Hc. exact IH.
Qed.

(** What [trimStart] leaves does not begin with white space. *)
Lemma trimStart_head s :
  trimStart s = [] \/
  exists c s', trimStart s = c :: s' /\ is_space c = false.
Proof.
  induction s as [ | c s IH ]; simpl; [ left; reflexivity | ].
  destruct (is_space c) eqn:E; [ exact IH | right; eauto ].
Qed.

Lemma trimStart_app_r s x :
  trimStart s <> [] -> trimStart (s ++ x) = trimStart s ++ x.
Proof.
  induction s as [ | c s IH ]; simpl; [ congruence | ].
  destruct (is_space c); [ exact IH | reflexivity ].
Qed.

Lemma trimEnd_app_space s ws :
  Forall (fun c => is_space c = true) ws -> trimEnd (s ++ ws) = trimEnd s.
Proof.
  intros H. unfold trimEnd. rewrite rev_app_distr.
  rewrite trimStart_app_space; [ reflexivity | ].
  apply Forall_rev. exact H.
Qed.

(** White space around the input does not change what [trim] returns. *)
Lemma trim_pad ws1 s ws2 :
  Forall (fun c => is_space c = true) ws1 ->
  Forall (fun c => is_space c = true) ws2 ->
  trim (ws1 ++ s ++ ws2) = trim s.
Proof.
  intros H1 H2. unfold trim. rewrite trimStart_app_space by exact H1.
  destruct (trimStart s) as [ | c s' ] eqn:Es.
  - assert (Hs : Forall (fun c => is_space c = true) s).
    { clear - Es. induction s as [ | c s IH ]; [ constructor | ].
      simpl in Es. destruct (is_space c) eqn:E; [ | discriminate ].
      constructor; auto. }
    rewrite trimStart_app_space by exact Hs.
    rewrite (trimStart_all_space H2). reflexivity.
  - rewrite trimStart_app_r by (rewrite Es; discriminate).
    rewrite Es. apply trimEnd_app_space. exact H2.
Qed.

Lemma Forall_trimStart (P : char -> Prop) s :
  Forall P s -> Forall P (trimStart s).
Proof.
  induction 1 as [ | c s Hc Hs IH ]; simpl; [ constructor | ].
  destruct (is_space c); [ exact IH | constructor; assumption ].
Qed.

(** [trim] only removes characters. *)
Lemma Forall_trim (P : char -> Prop) s : Forall P s -> Forall P (trim s).
Proof.
  intros H. unfold trim, trimEnd.
  apply Forall_rev, Forall_trimStart, Forall_rev, Forall_trimStart, H.
Qed.

End TrimMore.

(* ===================================================================== *)
(** ** Dot-separated patterns, read through [split] *)
(* ===================================================================== *)

Section DotSeparated.

Let nodot (c : char) : Prop := c <> ch ".".

Variables X Y : regex.
Hypothesis X_nodot : alphabet nodot X.
Hypothesis Y_nodot : alphabet nodot Y.

(** [(X\.)*Y]: the pieces between dots match [X], the last one [Y]. *)
Lemma labels_then_last s :
  matches (Cat (Star (Cat X (Chr (ch ".")))) Y) s <->
  exists labels tld,
    split (ch ".") s = labels ++ [tld]
    /\ Forall (matches X) labels /\ matches Y tld.
Proof.
  split.
  - intros H. apply matches_Cat_inv in H as (a & b & -> & Ha & Hb).
    induction Ha as [ | s1 s2 Hlab _ IH ] using matches_Star_ind'.
    + exists [], b. simpl. split; [ | auto ].
      apply split_no_sep. exact (matches_alphabet nodot Y_nodot Hb).
    + destruct IH as (labels & tld & Es & Hl & Ht).
      apply matches_Cat_inv in Hlab as (x & d & -> & Hx & Hd).
      apply matches_Chr_inv in Hd as ->.
      exists (x :: labels), tld. split; [ | split; [ constructor; auto | auto ] ].
      rewrite <- !app_assoc. cbn [app].
      rewrite split_app_sep by exact (matches_alphabet nodot X_nodot Hx).
      rewrite Es. reflexivity.
  - intros (labels & tld & Es & Hl & Ht). revert s Es.
    induction Hl as [ | x labels Hx _ IH ]; intros s Es; simpl in Es.
    + apply split_inv in Es as [ [_ ->] | (s' & _ & Hs') ].
      * exact (MCat (s1 := []) (MStarNil _) Ht).
      * apply split_not_nil in Hs'. contradiction.
    + apply split_inv in Es as [ [E _] | (s' & -> & Hs') ].
      * destruct labels; discriminate.
      * apply IH in Hs'. apply matches_Cat_inv in Hs' as (a & b & -> & Ha & Hb).
        assert (E : forall c, x ++ c :: a ++ b = ((x ++ [c]) ++ a) ++ b)
          by (intros c; rewrite <- !app_assoc; reflexivity).
        rewrite E.
        constructor; [ | exact Hb ].
        constructor; [ | exact Ha ].
        constructor; [ exact Hx | constructor; apply N.eqb_refl ].
Qed.

(** [X(\.X)*]: every piece between dots matches [X]. *)
Lemma first_then_labels s :
  matches (Cat X (Star (Cat (Chr (ch ".")) X))) s <->
  Forall (matches X) (split (ch ".") s).
Proof.
  split.
  - intros H. apply matches_Cat_inv in H as (a & b & -> & Ha & Hb).
    revert a Ha.
    induction Hb as [ | s1 s2 Hlab _ IH ] using matches_Star_ind'; intros a Ha.
    + rewrite app_nil_r. rewrite split_no_sep.
      * constructor; auto.
      * exact (matches_alphabet nodot X_nodot Ha).
    + apply matches_Cat_inv in Hlab as (d & x & -> & Hd & Hx).
      apply matches_Chr_inv in Hd as ->. rewrite <- app_assoc. cbn [app].
      rewrite split_app_sep by exact (matches_alphabet nodot X_nodot Ha).
      constructor; [ exact Ha | apply IH; exact Hx ].
  - remember (split (ch ".") s) as pieces eqn:Es. intros H. revert s Es.
    induction H as [ | x rest Hx Hrest IH ]; intros s Es; symmetry in Es.
    + apply split_not_nil in Es. contradiction.
    + apply split_inv in Es as [ [-> ->] | (s' & -> & Hs') ].
      * rewrite <- (app_nil_r x). constructor; [ exact Hx | constructor ].
      * symmetry in Hs'. apply IH in Hs'.
        apply matches_Cat_inv in Hs' as (a & b & -> & Ha & Hb).
        constructor; [ exact Hx | ].
        change (ch "." :: a ++ b) with ((ch "." :: a) ++ b).
        constructor; [ | exact Hb ].
        exact (MCat (s1 := [ch "."]) (MClass _ _ (N.eqb_refl _)) Ha).
Qed.

End DotSeparated.

(* ===================================================================== *)
(** ** The shapes the patterns describe *)
(* ===================================================================== *)

Section Shapes.

Lemma Forall_iff (A : Type) (P Q : A -> Prop) l :
  (forall a, P a <-> Q a) -> (Forall P l <-> Forall Q l).
Proof.
  intros H. split; apply Forall_impl; intros a; apply H.
Qed.

Lemma plus_class_spec p s :
  matches (Plus (Class p)) s <->
  s <> [] /\ Forall (fun c => p c = true) s.
Proof.
  split; [ apply matches_Plus_Class_inv | ].
  intros [Hne H]. apply matches_Plus_Class; assumption.
Qed.

Lemma plus_class_nodot p :
  (forall c, p c = true -> c <> ch ".") ->
  alphabet (fun c => c <> ch ".") (Plus (Class p)).
Proof. intros H. unfold Plus. cbn [alphabet]. auto. Qed.

(** A run of letters, digits and hyphens that starts and ends with a
    letter or digit. *)
Lemma rwLabel_spec l :
  matches rwLabel l <->
  Forall (fun c => alnumHyphen c = true) l
  /\ alnum (hd 0%N l) = true /\ alnum (last l 0%N) = true.
Proof.
  split.
  - intros H. split.
    + revert H. apply matches_alphabet.
      alphabet_tac; auto using alnum_alnumHyphen.
    + apply matches_Cat_inv in H as (a & b & -> & Ha & Hb).
      apply matches_Class_inv in Ha as (c & -> & Hc). cbn [app hd].
      split; [ exact Hc | ].
      apply matches_Alt_inv in Hb as [Hb | Hb].
      * apply matches_Cat_inv in Hb as (m & e & -> & _ & He).
        apply matches_Class_inv in He as (c' & -> & Hc').
        rewrite app_comm_cons, last_last. exact Hc'.
      * apply matches_Eps_inv in Hb as ->. exact Hc.
  - intros (Hall & Hhd & Hlast).
    destruct l as [ | c rest ]; [ discriminate | ]. cbn [hd] in Hhd.
    apply (MCat (s1 := [c])); [ constructor; exact Hhd | ].
    destruct rest as [ | c' rest' ]; [ apply MAltR; constructor | ].
    apply MAltL.
    destruct (exists_last (l := c' :: rest')) as (m & e & E); [ discriminate | ].
    rewrite E in *. rewrite app_comm_cons, last_last in Hlast.
    inversion Hall as [ | ? ? _ Hrest ]; subst.
    apply Forall_app in Hrest as [Hm _].
    constructor; [ apply matches_Star_Class; exact Hm | constructor; exact Hlast ].
Qed.

(** Two or more letters. *)
Lemma rwTld_spec s :
  matches (AtLeast 2 (Class alpha)) s <->
  (2 <= List.length s)%nat /\ Forall (fun c => alpha c = true) s.
Proof.
  split.
  - intros H. split.
    + apply matches_Cat_inv in H as (a & b & -> & Ha & _).
      apply matches_Cat_inv in Ha as (x & y & -> & Hx & Hy).
      apply matches_Cat_inv in Hy as (y1 & y2 & -> & Hy1 & _).
      apply matches_Class_inv in Hx as (c1 & -> & _).
      apply matches_Class_inv in Hy1 as (c2 & -> & _).
      cbn [app List.length]. lia.
    + revert H. apply matches_alphabet. alphabet_tac; auto.
  - intros [Hlen H]. destruct s as [ | c1 [ | c2 rest ] ]; simpl in Hlen; try lia.
    inversion H as [ | ? ? H1 H' ]; subst. inversion H' as [ | ? ? H2 H3 ]; subst.
    apply (MCat (s1 := [c1; c2])).
    + apply (MCat (s1 := [c1])); [ constructor; exact H1 | ].
      apply (MCat (s1 := [c2]) (s2 := [])); [ constructor; exact H2 | constructor ].
    + apply matches_Star_Class; exact H3.
Qed.

(** The RFC plain domain: non-empty labels of letters, digits and hyphens,
    separated by single dots. *)
Lemma rfcDomain_spec d :
  matches rfcDomain d <->
  Forall (fun l => l <> [] /\ Forall (fun c => alnumHyphen c = true) l)
         (split (ch ".") d).
Proof.
  unfold rfcDomain.
  rewrite labels_then_last
    by (apply plus_class_nodot; exact alnumHyphen_not_dot).
  split.
  - intros (labels & tld & -> & Hl & Ht). apply Forall_app. split.
    + revert Hl. apply Forall_impl. intros l. apply plus_class_spec.
    + constructor; [ apply plus_class_spec; exact Ht | constructor ].
  - intros H.
    destruct (exists_last (split_not_nil (ch ".") d)) as (labels & tld & E).
    rewrite E in H. apply Forall_app in H as [Hl Ht].
    exists labels, tld. split; [ exact E | split ].
    + revert Hl. apply Forall_impl. intros l. apply plus_class_spec.
    + inversion Ht; subst. apply plus_class_spec. assumption.
Qed.

(** The real-world domain: one or more labels, then a top-level label of
    two or more letters. *)
Lemma rwDomain_spec d :
  matches rwDomain d <->
  exists labels tld,
    split (ch ".") d = labels ++ [tld] /\ labels <> []
    /\ Forall (matches rwLabel) labels
    /\ matches (AtLeast 2 (Class alpha)) tld.
Proof.
  assert (HX : alphabet (fun c => c <> ch ".") rwLabel).
  { alphabet_tac; intros c H; apply alnumHyphen_not_dot;
      auto using alnum_alnumHyphen. }
  assert (HY : alphabet (fun c => c <> ch ".") (AtLeast 2 (Class alpha))).
  { alphabet_tac; auto; intros c H; apply alnumHyphen_not_dot;
      auto using alpha_alnumHyphen. }
  split.
  - intros H. apply matches_Cat_inv in H as (a & b & -> & Ha & Hb).
    apply matches_Cat_inv in Ha as (x1 & a2 & -> & Hx1 & Ha2).
    assert (Hs : matches (Cat (Star (Cat rwLabel (Chr (ch ".")))) 
                              (AtLeast 2 (Class alpha))) (a2 ++ b))
      by (constructor; assumption).
    apply (proj1 (@labels_then_last _ _ HX HY _)) in Hs
      as (labels & tld & Es & Hl & Ht).
    apply matches_Cat_inv in Hx1 as (x & dt & -> & Hx & Hdt).
    apply matches_Chr_inv in Hdt as ->.
    exists (x :: labels), tld. split; [ | split; [ discriminate | ] ].
    + rewrite <- !app_assoc. cbn [app].
      rewrite split_app_sep by exact (matches_alphabet _ HX Hx).
      rewrite Es. reflexivity.
    + split; [ constructor; assumption | assumption ].
  - intros (labels & tld & Es & Hne & Hl & Ht).
    destruct labels as [ | x labels ]; [ congruence | ].
    inversion Hl as [ | ? ? Hx Hl' ]; subst. cbn [app] in Es.
    apply split_inv in Es as [ [E _] | (s' & -> & Hs') ].
    + destruct labels; discriminate.
    + assert (Hs : matches (Cat (Star (Cat rwLabel (Chr (ch "."))))
                                (AtLeast 2 (Class alpha))) s').
      { apply (proj2 (@labels_then_last _ _ HX HY _)). eauto. }
      apply matches_Cat_inv in Hs as (a & b & -> & Ha & Hb).
      assert (E : forall c, x ++ c :: a ++ b = ((x ++ [c]) ++ a) ++ b)
        by (intros c; rewrite <- !app_assoc; reflexivity).
      rewrite E. constructor; [ | exact Hb ].
      constructor; [ | exact Ha ].
      constructor; [ exact Hx | constructor; apply N.eqb_refl ].
Qed.

(** A dot-atom over a class without the dot: non-empty pieces separated by
    single dots. *)
Lemma dotAtom_spec p s :
  (forall c, p c = true -> c <> ch ".") ->
  matches (Cat (Plus (Class p)) (Star (Cat (Chr (ch ".")) (Plus (Class p))))) s
  <-> Forall (fun l => l <> [] /\ Forall (fun c => p c = true) l)
             (split (ch ".") s).
Proof.
  intros Hp. rewrite first_then_labels by (apply plus_class_nodot; exact Hp).
  apply Forall_iff. intros l. apply plus_class_spec.
Qed.

Lemma rwLocalChar_not_dot c : rwLocalChar c = true -> c <> ch ".".
Proof. intros H. class_tac. Qed.

Lemma atext_not_dot c : atext c = true -> c <> ch ".".
Proof. intros H. class_tac. Qed.

End Shapes.

(* ===================================================================== *)
(** ** Further properties of the validator *)
(* ===================================================================== *)

Section DomainPieces.

(** A bracketed literal starts with the bracket and holds no [@]. *)
Lemma rfcLiteral_shape d :
  matches (Alt rfcIPv4 rfcIPv6) d ->
  (exists d', d = ch "[" :: d') /\ Forall (fun c => c <> ch "@") d.
Proof.
  intros H. split.
  - apply matches_Alt_inv in H as [H | H];
      apply matches_Cat_inv in H as (a & b & -> & Ha & _).
    + apply matches_Chr_inv in Ha as ->. simpl. eauto.
    + apply matches_Cat_inv in Ha as (a1 & a2 & -> & Ha1 & _).
      apply matches_Chr_inv in Ha1 as ->. simpl. eauto.
  - revert H. apply matches_alphabet.
    unfold rfcIPv4, rfcIPv6, octet, Lit, Plus, Opt, Chr. norm_chars.
    cbn [alphabet Rep fold_right].
    repeat split; intros c H; class_tac.
Qed.

(** Whatever either pattern matches ends with an [@] followed by a
    non-empty text without [@]. *)
Lemma accepted_decompose m t :
  test (selectedRegex m) t = true ->
  exists l d, t = l ++ ch "@" :: d /\ d <> []
              /\ Forall (fun c => c <> ch "@") d
              /\ (m = RealWorld -> Forall (fun c => c <> ch "@") l
                                   /\ matches rfcDomain d).
Proof.
  destruct m; cbn [selectedRegex]; intros H.
  - apply realWorld_decompose in H as (l & d & -> & Hl & Hd).
    apply rwDomain_rfcDomain in Hd. exists l, d.
    split; [ reflexivity | ].
    split; [ apply rfcDomain_nonempty; exact Hd | ].
    split; [ apply rfcDomain_no_at; exact Hd | ].
    intros _. split; [ apply rwLocal_no_at; exact Hl | exact Hd ].
  - apply rfc_decompose in H as (l & d & -> & _ & Hd).
    exists l, d. split; [ reflexivity | ].
    assert (Hd' : d <> [] /\ Forall (fun c => c <> ch "@") d).
    { apply matches_Alt_inv in Hd as [Hd | Hd].
      - auto using rfcDomain_nonempty, rfcDomain_no_at.
      - apply rfcLiteral_shape in Hd as [(d' & ->) Hat].
        split; [ discriminate | exact Hat ]. }
    destruct Hd' as [Hne Hat].
    split; [ exact Hne | ]. split; [ exact Hat | ].
    intros E. discriminate E.
Qed.

(** With exactly one [@], the text before it and the text after it are
    the two pieces of the split. *)
Lemma one_at_pieces l d :
  List.length (split (ch "@") (l ++ ch "@" :: d)) = 2%nat ->
  Forall (fun c => c <> ch "@") l /\ Forall (fun c => c <> ch "@") d.
Proof.
  rewrite split_app, length_app. intros H.
  pose proof (split_not_nil (ch "@") l) as Hl.
  pose proof (split_not_nil (ch "@") d) as Hd.
  destruct (split (ch "@") l) as [ | pl [ | ? ? ] ] eqn:El; try congruence;
    destruct (split (ch "@") d) as [ | pd [ | ? ? ] ] eqn:Ed; try congruence;
    simpl in H; try lia.
  split; apply split_one_piece; [ rewrite El | rewrite Ed ]; reflexivity.
Qed.

End DomainPieces.

Section Extras.

(** White space before and after the address is ignored: the padded input
    runs the same computation as the bare one. *)
Theorem padding_ignored ws1 ws2 s o :
  forallb is_space ws1 = true -> forallb is_space ws2 = true ->
  validateEmailStrict (JString (ws1 ++ s ++ ws2)) o
  = validateEmailStrict (JString s) o.
Proof.
  intros H1 H2. apply Forall_forallb in H1, H2.
  unfold validateEmailStrict. cbn [typeof stringValue].
  rewrite (trim_pad s H1 H2). reflexivity.
Qed.

Lemma padding_ignored_witness :
  validateEmailStrict (JString (js "  " ++ js "test@example.com" ++ js " "))
                      (options_of Rfc true)
  = validateEmailStrict (JString (js "test@example.com")) (options_of Rfc true).
Proof.
  apply (@padding_ignored (js "  ") (js " ") (js "test@example.com")
           (options_of Rfc true)); reflexivity.
Defined.

(** An input without [@] resolves to [false] under every options value,
    and no lookup is made. *)
Theorem no_at_sign_rejected resolver s o :
  ~ In (ch "@") s ->
  run resolver (validateEmailStrict (JString s) o) = (Fulfilled false, []).
Proof.
  intros Hno. rewrite validate_string.
  destruct (syntaxAccepts (modeOf o) (trim s)) eqn:E; [ | reflexivity ].
  exfalso. unfold syntaxAccepts in E. apply andb_true_iff in E as [E _].
  apply accepted_decompose in E as (l & d & Et & _).
  assert (Hall : Forall (fun c => c <> ch "@") (trim s)).
  { apply Forall_trim. apply Forall_forall. intros c Hc ->. auto. }
  rewrite Et in Hall. apply Forall_app in Hall as [_ Hall].
  inversion Hall as [ | ? ? Hat _ ]; subst. apply Hat. reflexivity.
Qed.

Lemma no_at_sign_rejected_witness :
  run anyResolver
      (validateEmailStrict (JString (js "example.com")) (options_of Rfc true))
  = (Fulfilled false, []).
Proof.
  apply (@no_at_sign_rejected anyResolver (js "example.com")
           (options_of Rfc true)).
  intros H. repeat (destruct H as [H | H]; [ discriminate H | ]). exact H.
Defined.

(** The real-world policy accepts exactly the trimmed inputs of the form
    [local@domain] where [local] is made of non-empty dot-separated pieces
    of characters of the negated class, and [domain] of one or more
    dot-separated labels (letters, digits and hyphens, a letter or digit at
    both ends) followed by a last label of two or more letters. *)
Theorem real_world_accepted_shape resolver s :
  run resolver (validateEmailStrict (JString s) (options_of RealWorld false))
  = (Fulfilled true, [])
  <-> exists l d labels tld,
        trim s = l ++ ch "@" :: d
        /\ Forall (fun p => p <> [] /\ Forall (fun c => rwLocalChar c = true) p)
                  (split (ch ".") l)
        /\ split (ch ".") d = labels ++ [tld] /\ labels <> []
        /\ Forall (fun x => Forall (fun c => alnumHyphen c = true) x
                            /\ alnum (hd 0%N x) = true
                            /\ alnum (last x 0%N) = true) labels
        /\ (2 <= List.length tld)%nat
        /\ Forall (fun c => alpha c = true) tld.
Proof.
  rewrite run_no_check by reflexivity.
  cbn [modeOf options_of validationMode]. unfold syntaxAccepts.
  cbn [selectedRegex]. rewrite andb_true_r.
  split.
  - intros H. injection H as H.
    apply realWorld_decompose in H as (l & d & Et & Hl & Hd).
    apply (dotAtom_spec rwLocalChar l rwLocalChar_not_dot) in Hl.
    apply rwDomain_spec in Hd as (labels & tld & Es & Hne & Hlab & Ht).
    apply rwTld_spec in Ht as [Hlen Ht].
    exists l, d, labels, tld. repeat split; auto.
    revert Hlab. apply Forall_impl. intros x. apply rwLabel_spec.
  - intros (l & d & labels & tld & Et & Hl & Es & Hne & Hlab & Hlen & Ht).
    f_equal. f_equal. apply test_matches. rewrite Et. constructor.
    + apply (dotAtom_spec rwLocalChar l rwLocalChar_not_dot). exact Hl.
    + apply (MCat (s1 := [ch "@"])); [ constructor; apply N.eqb_refl | ].
      apply rwDomain_spec. exists labels, tld. repeat split; auto.
      * revert Hlab. apply Forall_impl. intros x. apply rwLabel_spec.
      * apply rwTld_spec. auto.
Qed.

(** An address the real-world policy accepts has exactly one [@], and
    apart from it and the dots every character passes the negated class:
    no white space, quote, bracket, parenthesis, angle bracket, backslash,
    comma, semicolon or colon anywhere. *)
Theorem real_world_one_at_and_alphabet resolver s :
  run resolver (validateEmailStrict (JString s) (options_of RealWorld false))
  = (Fulfilled true, []) ->
  List.length (split (ch "@") (trim s)) = 2%nat
  /\ Forall (fun c => c = ch "." \/ c = ch "@" \/ rwLocalChar c = true)
            (trim s).
Proof.
  rewrite run_no_check by reflexivity.
  cbn [modeOf options_of validationMode]. unfold syntaxAccepts.
  cbn [selectedRegex]. rewrite andb_true_r. intros H. injection H as H.
  split.
  - apply (accepted_decompose RealWorld) in H as (l & d & -> & _ & Hd & Hl).
    destruct (Hl eq_refl) as [Hl' _]. rewrite split_two by assumption.
    reflexivity.
  - apply test_matches in H. revert H. apply matches_alphabet.
    unfold realWorldEmailRegex. alphabet_tac; intros c H;
      try (right; right; exact H);
      try (apply N.eqb_eq in H; subst c; auto; fail);
      right; right; class_tac.
Qed.

Lemma real_world_one_at_and_alphabet_witness :
  List.length (split (ch "@") (trim (js " test.user@sub.example.com"))) = 2%nat
  /\ Forall (fun c => c = ch "." \/ c = ch "@" \/ rwLocalChar c = true)
            (trim (js " test.user@sub.example.com")).
Proof.
  apply (@real_world_one_at_and_alphabet anyResolver
           (js " test.user@sub.example.com")).
  reflexivity.
Defined.

(** The RFC plain-domain pattern matches exactly the strings whose
    dot-separated labels are all non-empty runs of letters, digits and
    hyphens; a single label is enough. *)
Theorem rfc_plain_domain_shape d :
  test rfcDomain d = true
  <-> Forall (fun l => l <> [] /\ Forall (fun c => alnumHyphen c = true) l)
             (split (ch ".") d).
Proof. rewrite test_matches. apply rfcDomain_spec. Qed.

(** With no [@] before the last one, a domain of either RFC form passes
    the post-regex block, and is the piece that block looks at. *)
Lemma postRegexChecks_one_at l d :
  Forall (fun c => c <> ch "@") l ->
  matches (Alt rfcDomain (Alt rfcIPv4 rfcIPv6)) d ->
  domainOf (l ++ ch "@" :: d) = Some d /\ d <> []
  /\ postRegexChecks (l ++ ch "@" :: d) = true.
Proof.
  intros Hl Hd. apply matches_Alt_inv in Hd as [Hd | Hd].
  - apply postRegexChecks_plain; assumption.
  - apply rfcLiteral_shape in Hd as [(d' & ->) Hat].
    assert (Hdom : domainOf (l ++ ch "@" :: ch "[" :: d') = Some (ch "[" :: d')).
    { unfold domainOf. rewrite split_two; auto. }
    split; [ exact Hdom | ]. split; [ discriminate | ].
    unfold postRegexChecks. rewrite Hdom. reflexivity.
Qed.

(** The post-regex block refuses an address the RFC pattern matched only
    when its local part is quoted and holds an [@]: the input then starts
    with a double quote and splits on [@] into three pieces or more. *)
Theorem post_regex_block_refuses_only_quoted_at t :
  test rfcSyntaxRegex t = true -> postRegexChecks t = false ->
  hd 0%N t = dquote /\ (3 <= List.length (split (ch "@") t))%nat.
Proof.
  intros Hre Hpost.
  apply rfc_decompose in Hre as (l & d & -> & Hl & Hd).
  assert (Hat : ~ Forall (fun c => c <> ch "@") l).
  { intros Hno. destruct (postRegexChecks_one_at Hno Hd) as (_ & _ & E).
    congruence. }
  split.
  - destruct Hl as [Hu | Hq].
    + contradiction Hat. apply rfcUnquotedLocal_no_at. exact Hu.
    + apply rfcQuotedLocal_first in Hq as (q & ->). reflexivity.
  - rewrite split_app, length_app.
    pose proof (split_not_nil (ch "@") d) as Hd'.
    destruct (split (ch "@") d) as [ | pd rd ]; [ congruence | ].
    destruct (split (ch "@") l) as [ | pl [ | pl' rl ] ] eqn:El.
    + apply split_not_nil in El. contradiction.
    + contradiction Hat. apply split_one_piece. rewrite El. reflexivity.
    + simpl. lia.
Qed.

Lemma post_regex_block_refuses_only_quoted_at_witness :
  hd 0%N (quoted "a@.b" "@example.com") = dquote
  /\ (3 <= List.length (split (ch "@") (quoted "a@.b" "@example.com")))%nat.
Proof.
  apply (@post_regex_block_refuses_only_quoted_at
           (quoted "a@.b" "@example.com")); reflexivity.
Defined.

(** For an input without double quote and without opening bracket, the
    rfc policy accepts exactly the form [local@domain] with [local] made
    of non-empty dot-separated pieces of [atext] characters and [domain]
    of non-empty dot-separated labels of letters, digits and hyphens. *)
Theorem rfc_plain_accepted_shape resolver s :
  ~ In dquote s -> ~ In (ch "[") s ->
  (run resolver (validateEmailStrict (JString s) (options_of Rfc false))
   = (Fulfilled true, [])
   <-> exists l d,
         trim s = l ++ ch "@" :: d
         /\ Forall (fun p => p <> [] /\ Forall (fun c => atext c = true) p)
                   (split (ch ".") l)
         /\ Forall (fun x => x <> []
                             /\ Forall (fun c => alnumHyphen c = true) x)
                   (split (ch ".") d)).
Proof.
  intros Hq Hb. rewrite run_no_check by reflexivity.
  cbn [modeOf options_of validationMode]. unfold syntaxAccepts.
  cbn [selectedRegex].
  assert (Hq' : Forall (fun c => c <> dquote) (trim s)).
  { apply Forall_trim, Forall_forall. intros c Hc ->. auto. }
  assert (Hb' : Forall (fun c => c <> ch "[") (trim s)).
  { apply Forall_trim, Forall_forall. intros c Hc ->. auto. }
  split.
  - intros H. injection H as H. apply andb_true_iff in H as [H _].
    apply rfc_decompose in H as (l & d & Et & Hl & Hd).
    rewrite Et in Hq', Hb'. exists l, d. split; [ exact Et | ].
    apply Forall_app in Hq' as [Hq' _]. apply Forall_app in Hb' as [_ Hb'].
    split.
    + destruct Hl as [Hu | Hquoted].
      * apply (dotAtom_spec atext l atext_not_dot). exact Hu.
      * apply rfcQuotedLocal_first in Hquoted as (q & ->).
        inversion Hq' as [ | ? ? Hc _ ]; subst. contradiction Hc. reflexivity.
    + apply matches_Alt_inv in Hd as [Hd | Hd].
      * apply rfcDomain_spec. exact Hd.
      * apply rfcLiteral_shape in Hd as [(d' & ->) _].
        inversion Hb' as [ | ? ? _ Hb'' ]; subst.
        inversion Hb'' as [ | ? ? Hc _ ]; subst. contradiction Hc. reflexivity.
  - intros (l & d & Et & Hl & Hd). rewrite Et.
    apply (dotAtom_spec atext l atext_not_dot) in Hl.
    apply rfcDomain_spec in Hd.
    f_equal. f_equal. apply andb_true_iff. split.
    + apply test_matches. constructor; [ apply MAltL; exact Hl | ].
      exact (MCat (s1 := [ch "@"]) (MClass _ _ (N.eqb_refl _)) (MAltL _ Hd)).
    + apply postRegexChecks_plain;
        [ apply rfcUnquotedLocal_no_at; exact Hl | exact Hd ].
Qed.

Lemma rfc_plain_accepted_shape_witness :
  run anyResolver
      (validateEmailStrict (JString (js "a.b@-x.c")) (options_of Rfc false))
  = (Fulfilled true, [])
  <-> exists l d,
        trim (js "a.b@-x.c") = l ++ ch "@" :: d
        /\ Forall (fun p => p <> [] /\ Forall (fun c => atext c = true) p)
                  (split (ch ".") l)
        /\ Forall (fun x => x <> []
                            /\ Forall (fun c => alnumHyphen c = true) x)
                  (split (ch ".") d).
Proof.
  apply (@rfc_plain_accepted_shape anyResolver (js "a.b@-x.c"));
    intros H; repeat (destruct H as [H | H]; [ discriminate H | ]); exact H.
Defined.

(** An address accepted without the domain check and holding exactly one
    [@] costs, with the domain check, one lookup of the text after the
    [@] (brackets included for an IP literal), and resolves to whether
    records were found. *)
Theorem single_at_lookup resolver s m :
  run resolver (validateEmailStrict (JString s) (options_of m false))
  = (Fulfilled true, []) ->
  List.length (split (ch "@") (trim s)) = 2%nat ->
  exists l d,
    trim s = l ++ ch "@" :: d
    /\ run resolver (validateEmailStrict (JString s) (options_of m true))
       = (Fulfilled (lookupVerdict (resolver d)), [d]).
Proof.
  rewrite run_no_check by reflexivity.
  cbn [modeOf options_of validationMode]. intros H Hlen. injection H as H.
  pose proof H as Hre. unfold syntaxAccepts in Hre.
  apply andb_true_iff in Hre as [Hre _].
  apply accepted_decompose in Hre as (l & d & Et & Hne & Hd & _).
  rewrite Et in Hlen. apply one_at_pieces in Hlen as [Hl _].
  exists l, d. split; [ exact Et | ].
  apply run_check; auto.
  rewrite Et. unfold domainOf. rewrite split_two; auto.
Qed.

Lemma single_at_lookup_witness :
  exists l d,
    trim (js "test@[1.2.3.4]") = l ++ ch "@" :: d
    /\ run emptyResolver
           (validateEmailStrict (JString (js "test@[1.2.3.4]"))
                                (options_of Rfc true))
       = (Fulfilled (lookupVerdict (emptyResolver d)), [d]).
Proof.
  apply (@single_at_lookup emptyResolver (js "test@[1.2.3.4]") Rfc);
    reflexivity.
Defined.

(** In real-world mode the name looked up is the text after the only [@],
    and it is made of letters, digits, hyphens and dots only. *)
Theorem real_world_lookup_hostname resolver s :
  run resolver (validateEmailStrict (JString s) (options_of RealWorld false))
  = (Fulfilled true, []) ->
  exists l d,
    trim s = l ++ ch "@" :: d
    /\ ~ In (ch "@") l
    /\ Forall (fun c => alnumHyphen c = true \/ c = ch ".") d
    /\ run resolver (validateEmailStrict (JString s) (options_of RealWorld true))
       = (Fulfilled (lookupVerdict (resolver d)), [d]).
Proof.
  rewrite run_no_check by reflexivity.
  cbn [modeOf options_of validationMode]. intros H. injection H as H.
  pose proof H as Hre. unfold syntaxAccepts in Hre.
  apply andb_true_iff in Hre as [Hre _].
  apply accepted_decompose in Hre as (l & d & Et & Hne & Hd & Hrw).
  destruct (Hrw eq_refl) as [Hl Hdom].
  exists l, d. split; [ exact Et | ]. split.
  - intros Hin. rewrite Forall_forall in Hl. exact (Hl _ Hin eq_refl).
  - split; [ apply rfcDomain_alphabet; exact Hdom | ].
    apply run_check; auto.
    rewrite Et. unfold domainOf. rewrite split_two; auto.
Qed.

Lemma real_world_lookup_hostname_witness :
  exists l d,
    trim (js "test@example-valid.com") = l ++ ch "@" :: d
    /\ ~ In (ch "@") l
    /\ Forall (fun c => alnumHyphen c = true \/ c = ch ".") d
    /\ run anyResolver
           (validateEmailStrict (JString (js "test@example-valid.com"))
                                (options_of RealWorld true))
       = (Fulfilled (lookupVerdict (anyResolver d)), [d]).
Proof.
  apply (@real_world_lookup_hostname anyResolver (js "test@example-valid.com")).
  reflexivity.
Defined.

(** With the domain check, [true] is only ever the answer when one lookup
    was made, of the second [@]-piece of the trimmed input, and it was
    fulfilled with at least one record: a rejected lookup, whatever its
    error code, and an empty answer never give [true]. The same input
    without the domain check then resolves to [true] as well. *)
Theorem true_with_check_means_records resolver s o :
  checkDomainOf o = true ->
  fst (run resolver (validateEmailStrict (JString s) o)) = Fulfilled true ->
  exists d mx,
    snd (run resolver (validateEmailStrict (JString s) o)) = [d]
    /\ domainOf (trim s) = Some d
    /\ resolver d = Fulfilled mx /\ mx <> []
    /\ run resolver
           (validateEmailStrict (JString s) (options_of (modeOf o) false))
       = (Fulfilled true, []).
Proof.
  intros Hcd.
  rewrite (@run_no_check resolver s (options_of (modeOf o) false) eq_refl).
  cbn [modeOf options_of validationMode].
  rewrite validate_string, Hcd.
  destruct (syntaxAccepts (modeOf o) (trim s)); [ | discriminate ].
  destruct (domainOf (trim s)) as [ [ | c d ] | ]; try discriminate.
  cbn [run]. rewrite run_afterLookup. cbn [fst snd]. intros H.
  injection H as H. apply lookupVerdict_true in H as (mx & E & Hne).
  exists (c :: d), mx. auto.
Qed.

Lemma true_with_check_means_records_witness :
  exists d mx,
    snd (run anyResolver
           (validateEmailStrict (JString (js "test@localhost"))
                                (options_of Rfc true))) = [d]
    /\ domainOf (trim (js "test@localhost")) = Some d
    /\ anyResolver d = Fulfilled mx /\ mx <> []
    /\ run anyResolver
           (validateEmailStrict (JString (js "test@localhost"))
                                (options_of (modeOf (options_of Rfc true)) false))
       = (Fulfilled true, []).
Proof.
  apply (@true_with_check_means_records anyResolver (js "test@localhost")
           (options_of Rfc true)); reflexivity.
Defined.

(** Whatever the input and the options, at most one lookup is made, and
    the name looked up is never empty and never holds an [@]. *)
Theorem lookups_are_single_nonempty_pieces resolver v o :
  (List.length (snd (run resolver (validateEmailStrict v o))) <= 1)%nat
  /\ Forall (fun d => d <> [] /\ ~ In (ch "@") d)
            (snd (run resolver (validateEmailStrict v o))).
Proof.
  destruct v;
    try (split; [ apply Nat.le_0_l | constructor ]).
  rewrite validate_string.
  destruct (syntaxAccepts (modeOf o) (trim s));
    [ | split; [ apply Nat.le_0_l | constructor ] ].
  destruct (checkDomainOf o);
    [ | split; [ apply Nat.le_0_l | constructor ] ].
  destruct (domainOf (trim s)) as [ [ | c d ] | ] eqn:Ed;
    try (split; [ apply Nat.le_0_l | constructor ]).
  cbn [run]. rewrite run_afterLookup. cbn [snd List.length].
  split; [ apply Nat.le_refl | ].
  constructor; [ | constructor ]. split; [ discriminate | ].
  unfold domainOf in Ed. apply nth_error_In in Ed.
  pose proof (split_pieces_no_sep (ch "@") (trim s)) as Hp.
  rewrite Forall_forall in Hp. specialize (Hp _ Ed).
  rewrite Forall_forall in Hp. intros Hin. exact (Hp _ Hin eq_refl).
Qed.

End Extras.

(* ===================================================================== *)
(** ** The bracketed IPv4 literal *)
(* ===================================================================== *)

Ltac inv_matches :=
  repeat match goal with
    | H : matches (Cat _ _) _ |- _ =>
        apply matches_Cat_inv in H as (? & ? & -> & ? & ?)
    | H : matches (Alt _ _) _ |- _ =>
        apply matches_Alt_inv in H as [H | H]
    | H : matches (Class _) _ |- _ =>
        apply matches_Class_inv in H as (? & -> & ?)
    | H : matches Eps _ |- _ =>
        apply matches_Eps_inv in H as ->
    end.

Ltac digits_tac :=
  unfold isDigit, in_range, one_of in *;
  cbn [existsb forallb decimalValue fold_left List.length app] in *;
  norm_chars; bool_to_prop;
  repeat match goal with |- _ /\ _ => split end;
  try reflexivity; lia.

Section IPv4.

(** One octet: one to three decimal digits, of value at most 255. *)
Lemma octet_spec o :
  matches octet o <->
  (1 <= List.length o <= 3)%nat /\ forallb isDigit o = true
  /\ (decimalValue o <= 255)%N.
Proof.
  unfold octet, Lit, Opt, Chr. norm_chars. cbn [fold_right]. split.
  - intros H. inv_matches; digits_tac.
  - intros (Hlen & Hdig & Hval).
    destruct o as [ | a [ | b [ | c [ | ? ? ] ] ] ];
      cbn [List.length] in Hlen; try lia.
    + apply MAltR, MAltR.
      apply (MCat (s1 := []) (s2 := [a])); [ apply MAltR; constructor | ].
      apply (MCat (s1 := [a]) (s2 := []));
        [ constructor; digits_tac | apply MAltR; constructor ].
    + apply MAltR, MAltR.
      apply (MCat (s1 := []) (s2 := [a; b])); [ apply MAltR; constructor | ].
      apply (MCat (s1 := [a]) (s2 := [b])); [ constructor; digits_tac | ].
      apply MAltL. constructor. digits_tac.
    + destruct (N.leb_spec a 49) as [Ha | Ha].
      * apply MAltR, MAltR.
        apply (MCat (s1 := [a]) (s2 := [b; c]));
          [ apply MAltL; constructor; digits_tac | ].
        apply (MCat (s1 := [b]) (s2 := [c])); [ constructor; digits_tac | ].
        apply MAltL. constructor. digits_tac.
      * assert (Ea : a = 50%N) by digits_tac. subst a.
        destruct (N.leb_spec b 52) as [Hb | Hb].
        -- apply MAltR, MAltL.
           apply (MCat (s1 := [50%N]) (s2 := [b; c]));
             [ constructor; reflexivity | ].
           apply (MCat (s1 := [b]) (s2 := [c])); constructor; digits_tac.
        -- assert (Eb : b = 53%N) by digits_tac. subst b.
           apply MAltL.
           apply (MCat (s1 := [50%N; 53%N]) (s2 := [c])).
           ++ apply (MCat (s1 := [50%N]) (s2 := [53%N]));
                [ constructor; reflexivity | ].
              apply (MCat (s1 := [53%N]) (s2 := []));
                [ constructor; reflexivity | constructor ].
           ++ constructor. digits_tac.
Qed.

End IPv4.

Section IPv4Literal.

(** The bracketed IPv4 pattern matches exactly four octets between
    brackets, separated by dots, each of one to three decimal digits
    (leading zeros allowed) and of value at most 255. *)
Theorem rfc_ipv4_literal_shape d :
  test rfcIPv4 d = true
  <-> exists o1 o2 o3 o4,
        d = ch "[" :: o1 ++ ch "." :: o2 ++ ch "." :: o3 ++ ch "." :: o4
                   ++ [ch "]"]
        /\ Forall (fun o => (1 <= List.length o <= 3)%nat
                            /\ forallb isDigit o = true
                            /\ (decimalValue o <= 255)%N)
                  [o1; o2; o3; o4].
Proof.
  rewrite test_matches. unfold rfcIPv4, Chr. cbn [Rep]. split.
  - intros H. inv_matches.
    repeat match goal with
      | H : (_ =? _)%N = true |- _ => apply N.eqb_eq in H; subst
      end.
    repeat match goal with
      | H : matches octet _ |- _ => apply octet_spec in H
      end.
    match goal with
    | |- exists _ _ _ _, (?b ++ ?o1 ++ (((?d1 ++ ?o2) ++ (?d2 ++ ?o3)
                            ++ (?d3 ++ ?o4) ++ []) ++ ?e)) = _ /\ _ =>
        exists o1, o2, o3, o4
    end.
    split;
      [ | repeat (apply Forall_cons; [ assumption | ]); apply Forall_nil ].
    rewrite app_nil_r. cbn [app]. rewrite <- !app_assoc. cbn [app].
    rewrite <- !app_assoc. reflexivity.
  - intros (o1 & o2 & o3 & o4 & -> & Hall).
    inversion Hall as [ | ? ? H1 Hall1 ]; subst.
    inversion Hall1 as [ | ? ? H2 Hall2 ]; subst.
    inversion Hall2 as [ | ? ? H3 Hall3 ]; subst.
    inversion Hall3 as [ | ? ? H4 _ ]; subst.
    apply octet_spec in H1, H2, H3, H4.
    assert (Hdot : forall o, matches octet o ->
                   matches (Cat (Class (N.eqb (ch "."))) octet) (ch "." :: o)).
    { intros o Ho.
      exact (MCat (s1 := [ch "."]) (MClass _ _ (N.eqb_refl _)) Ho). }
    apply (MCat (s1 := [ch "["])); [ constructor; apply N.eqb_refl | ].
    apply MCat; [ exact H1 | ].
    replace (ch "." :: o2 ++ ch "." :: o3 ++ ch "." :: o4 ++ [ch "]"])
      with (((ch "." :: o2) ++ (ch "." :: o3) ++ (ch "." :: o4) ++ [])
            ++ [ch "]"]).
    + apply MCat; [ | constructor; apply N.eqb_refl ].
      repeat (apply MCat; [ apply Hdot; assumption | ]). constructor.
    + rewrite app_nil_r. cbn [app]. rewrite <- !app_assoc. cbn [app].
      rewrite <- !app_assoc. reflexivity.
Qed.

End IPv4Literal.
